(** * webidl-audit: a shallow embedding of [webidl-audit.py]

    The script reads a [git log --oneline] file line by line, classifies every
    summary line with three regular expressions, parses the reviewer
    annotation of the bug-fix lines, asks git for commit dates and committer
    e-mails, counts the outcomes and prints a report.

    Modelling choices.
    - A Python [str] is a sequence of Unicode code points: [str := list N].
      Literals of the script are written [lit "..."].
    - The patterns of the script are values of a small regular-expression
      syntax, run by a backtracking matcher with Python's priorities (greedy
      repetition, leftmost alternative first, [$] also before a final
      newline, [.] excluding the newline).
    - [str.strip()] and the class [\s] use the interpreter's fixed white space
      set; the class [\d] on a [str] pattern is every code point of Unicode
      category Nd, a table of the interpreter that grows with the Unicode
      version: it is the parameter [isdecimal].
    - [subprocess.check_output(["git", ...])] is an oracle; every call is
      logged, and a call may raise.
    - An aware [datetime] is its instant, in microseconds since the epoch;
      subtracting two aware datetimes only depends on the instants.
    - Output streams, the call log and the three ways the interpreter can
      leave a statement (normally, by [exit(n)], by an uncaught exception)
      are threaded through a state-and-exception monad.
    - The run starts after [getArgs()]: the input of [main] is the text of
      the log file as the text layer hands it over (decoded, line ends
      translated to a newline).  [script] starts one step earlier, at the
      opening of the file, which may fail, as may the read of a line. *)

From Stdlib Require Import String Ascii DecimalString.
From Stdlib Require Import NArith ZArith Bool Lia List.
Import ListNotations.

Set Implicit Arguments.

(** ** Strings *)

Definition char := N.
Definition str := list char.

(** An ASCII literal of the script, as code points. *)
Definition lit (s : string) : str :=
  map N_of_ascii (list_ascii_of_string s).

Definition NL : char := 10%N.

Definition char_eqb (a b : char) : bool := N.eqb a b.

Fixpoint str_eqb (a b : str) : bool :=
  match a, b with
  | [], [] => true
  | x :: a', y :: b' => char_eqb x y && str_eqb a' b'
  | _, _ => false
  end.

Definition mem (c : char) (set : str) : bool := existsb (char_eqb c) set.

(** [Py_UNICODE_ISSPACE]: the code points that [str.strip()] removes and that
    [\s] matches in a [str] pattern. *)
Definition isspace (c : char) : bool :=
  ((9 <=? c) && (c <=? 13) || (28 <=? c) && (c <=? 32)
   || (c =? 133) || (c =? 160) || (c =? 5760)
   || (8192 <=? c) && (c <=? 8202)
   || (c =? 8232) || (c =? 8233) || (c =? 8239) || (c =? 8287)
   || (c =? 12288))%N.

(** [s.lstrip(chars)], [s.rstrip(chars)], [s.strip(chars)] for a predicate. *)
Fixpoint lstrip_by (p : char -> bool) (s : str) : str :=
  match s with
  | c :: s' => if p c then lstrip_by p s' else s
  | [] => []
  end.

Fixpoint rstrip_by (p : char -> bool) (s : str) : str :=
  match s with
  | c :: s' =>
      match rstrip_by p s' with
      | [] => if p c then [] else [c]
      | t => c :: t
      end
  | [] => []
  end.

Definition strip_by (p : char -> bool) (s : str) : str :=
  rstrip_by p (lstrip_by p s).

(** [line.strip()] *)
Definition strip (s : str) : str := strip_by isspace s.

(** [rString.split(",")]: never empty, [""] splits into [[""]]. *)
Fixpoint split (sep : char) (s : str) : list str :=
  match s with
  | [] => [[]]
  | c :: s' =>
      if char_eqb c sep then [] :: split sep s'
      else match split sep s' with
           | piece :: rest => (c :: piece) :: rest
           | [] => [[c]]
           end
  end.

(** Iterating over a text file: every line keeps its terminator, the last
    line may lack one, an empty file has no line. *)
Fixpoint readlines_aux (cur : str) (text : str) : list str :=
  match text with
  | [] => match cur with [] => [] | _ => [rev cur] end
  | c :: text' =>
      if char_eqb c NL then rev (c :: cur) :: readlines_aux [] text'
      else readlines_aux (c :: cur) text'
  end.

Definition readlines (text : str) : list str := readlines_aux [] text.

(** [f"{n}"] for a non-negative [int]. *)
Definition str_of_nat (n : nat) : str :=
  lit (NilEmpty.string_of_uint (Nat.to_uint n)).

(** ** Regular expressions

    The constructs the script's patterns use.  Every repetition in them is
    over a one-character item, so [Plus] and [Star] take a character class. *)

Inductive regex : Type :=
| Eps                                   (* the empty pattern *)
| Bol                                   (* ^ *)
| Eol                                   (* $ *)
| Cls (p : char -> bool)                (* a class, an escape, . or a literal *)
| Cat (r1 r2 : regex)
| Or (r1 r2 : regex)                    (* r1|r2 *)
| Opt (r : regex)                       (* r? *)
| Plus (p : char -> bool)               (* [..]+ *)
| Star (p : char -> bool)               (* [..]* *)
| Named (name : string) (r : regex).    (* (?P<name>r) *)

Definition captures := list (string * str).

(** A continuation receives the offset reached, the rest of the subject and
    the groups captured so far. *)
Definition cont := nat -> str -> captures -> option captures.

(** Greedy [p*]: as many characters as possible, giving one back at a time
    while the continuation fails. *)
Fixpoint star (p : char -> bool) (pos : nat) (s : str) (cs : captures)
    (k : cont) : option captures :=
  match s with
  | c :: s' =>
      if p c then
        match star p (S pos) s' cs k with
        | Some r => Some r
        | None => k pos s cs
        end
      else k pos s cs
  | [] => k pos s cs
  end.

Fixpoint rmatch (r : regex) (pos : nat) (s : str) (cs : captures)
    (k : cont) : option captures :=
  match r with
  | Eps => k pos s cs
  | Bol => if Nat.eqb pos 0 then k pos s cs else None
  | Eol =>
      match s with
      | [] => k pos s cs
      | [c] => if char_eqb c NL then k pos s cs else None
      | _ => None
      end
  | Cls p =>
      match s with
      | c :: s' => if p c then k (S pos) s' cs else None
      | [] => None
      end
  | Cat r1 r2 =>
      rmatch r1 pos s cs (fun pos' s' cs' => rmatch r2 pos' s' cs' k)
  | Or r1 r2 =>
      match rmatch r1 pos s cs k with
      | Some r => Some r
      | None => rmatch r2 pos s cs k
      end
  | Opt r1 =>
      match rmatch r1 pos s cs k with
      | Some r => Some r
      | None => k pos s cs
      end
  | Plus p =>
      match s with
      | c :: s' => if p c then star p (S pos) s' cs k else None
      | [] => None
      end
  | Star p => star p pos s cs k
  | Named name r1 =>
      rmatch r1 pos s cs
        (fun pos' s' cs' => k pos' s' ((name, firstn (pos' - pos) s) :: cs'))
  end.

Definition accept : cont := fun _ _ cs => Some cs.

(** [pattern.match(s)]: at offset 0 only. *)
Definition re_match (r : regex) (s : str) : option captures :=
  rmatch r 0 s [] accept.

(** [pattern.search(s)]: the leftmost offset at which the pattern matches. *)
Fixpoint search_from (r : regex) (pos : nat) (s : str) : option captures :=
  match rmatch r pos s [] accept with
  | Some cs => Some cs
  | None =>
      match s with
      | [] => None
      | _ :: s' => search_from r (S pos) s'
      end
  end.

Definition re_search (r : regex) (s : str) : option captures :=
  search_from r 0 s.

(** [match.group(name)] for a group that took part in the match. *)
Fixpoint group (name : string) (cs : captures) : str :=
  match cs with
  | [] => []
  | (n, v) :: cs' => if String.eqb n name then v else group name cs'
  end.

(** *** Pattern sources *)

Definition dot (c : char) : bool := negb (char_eqb c NL).
Definition in_range (lo hi : string) (c : char) : bool :=
  match lit lo, lit hi with
  | [l], [h] => ((l <=? c) && (c <=? h))%N
  | _, _ => false
  end.

(** A run of pattern text without operators other than [.]: each character
    stands for itself, and [.] for any character but the newline. *)
Definition atom_class (a : char) : char -> bool :=
  if char_eqb a 46%N then dot else char_eqb a.

Fixpoint atoms (src : str) : regex :=
  match src with
  | [] => Eps
  | a :: src' => Cat (Cls (atom_class a)) (atoms src')
  end.

(** ["|".join(names)] spliced into a pattern: the alternation of the names,
    each read as pattern text. *)
Fixpoint joined (names : list str) : regex :=
  match names with
  | [] => atoms []
  | [n] => atoms n
  | n :: names' => Or (atoms n) (joined names')
  end.

Infix "+++" := Cat (at level 60, right associativity).

Definition lower_or_digit (c : char) : bool :=
  in_range "a" "z" c || in_range "0" "9" c.

(** [[a-zA-Z0-9\-\.\_]] *)
Definition reviewer_char (c : char) : bool :=
  in_range "a" "z" c || in_range "A" "Z" c || in_range "0" "9" c
  || mem c (lit "-._").

Definition backoutRE : list str :=
  map lit ["Revert"; "Backed out"; "Back out"; "back out";
           "Backout"; "backout"; "BACKOUT"; "Backing out"]%string.

Definition mergeRE : list str := map lit ["Merge"; "merge"]%string.

(** [^(?P<revision>[a-z0-9]+) ({backoutRE}|{mergeRE}) ], the last
    character a space. *)
Definition backoutMergePattern : regex :=
  Bol +++ Named "revision" (Plus lower_or_digit) +++ atoms (lit " ")
  +++ Or (joined backoutRE) (joined mergeRE) +++ atoms (lit " ").

(** [^(?P<revision>[a-z0-9]+)], a space, the group [summary] over [.*],
    then [$]. *)
Definition unrecognizedPattern : regex :=
  Bol +++ Named "revision" (Plus lower_or_digit) +++ atoms (lit " ")
  +++ Named "summary" (Star dot) +++ Eol.

(** [^(r=|sr=)?(?P<reviewer>[a-zA-Z0-9\-\.\_]+)$] *)
Definition reviewerPattern : regex :=
  Bol +++ Opt (Or (atoms (lit "r=")) (atoms (lit "sr=")))
  +++ Named "reviewer" (Plus reviewer_char) +++ Eol.

Definition webIDLPeersRE : list str :=
  map lit ["asuth"; "baku"; "bent"; "bholley"; "billm"; "bkelly"; "bz";
           "bzbarsky"; "echen"; "edgar"; "ehsan"; "emilio"; "farre";
           "hsivonen"; "jst"; "khuey"; "mccr8"; "mounir"; "mrbkap"; "nika";
           "Nika"; "peterv"; "qdot"; "saschanaz"; "sefeng"; "sicking";
           "smaug"; "tschuster"]%string.

(** [^({webIDLPeersRE})$] *)
Definition webIDLPeersPattern : regex := Bol +++ joined webIDLPeersRE +++ Eol.

(** [r\=], the group [reviewer] over [.*], then [$]. *)
Definition rEqualPattern : regex :=
  atoms (lit "r=") +++ Named "reviewer" (Star dot) +++ Eol.

Definition webIDLPeersEmailRE : list str :=
  map lit ["emilio@crisal.io"; "sefeng@mozilla.com"]%string.

(** [^({webIDLPeersEmailRE})$] *)
Definition webIDLPeersEmailPattern : regex :=
  Bol +++ joined webIDLPeersEmailRE +++ Eol.

(** ** Reviewer annotations *)

Inductive verdict : Type := OK | BAD_PARSE | MISSING.

(** The body of the loop of [parseReviewers] up to the peer test: the name
    an entry of the annotation stands for, or [None] where the function
    returns ["BAD_PARSE"]. *)
Definition reviewerName (entry : str) : option str :=
  let r := strip_by (char_eqb 32%N) entry in
  let r := rstrip_by (fun c => mem c (lit " .])")) r in
  match re_match reviewerPattern r with
  | Some m => Some (group "reviewer" m)
  | None =>
      if str_eqb r (lit "emilio DONTBUILD") then Some (lit "emilio")
      else None
  end.

Definition isPeer (r : str) : bool :=
  match re_match webIDLPeersPattern r with Some _ => true | None => false end.

(** The loop of [parseReviewers] over the entries. *)
Fixpoint parseEntries (entries : list str) : verdict :=
  match entries with
  | [] => MISSING
  | entry :: rest =>
      match reviewerName entry with
      | None => BAD_PARSE
      | Some r => if isPeer r then OK else parseEntries rest
      end
  end.

Definition parseReviewers (rString : str) : verdict :=
  parseEntries (split 44%N rString).

(** ** The interpreter's effects *)

(** An aware [datetime], as microseconds since the epoch; a [timedelta], as
    microseconds. *)
Definition datetime := Z.
Definition timedelta := Z.

(** [timedelta(days=n)] *)
Definition timedelta_days (n : Z) : timedelta := (n * 86400 * 1000000)%Z.

Inductive exn : Type :=
| AttributeError            (* 'NoneType' object has no attribute 'group' *)
| CalledProcessError        (* git returned a non-zero status *)
| ValueError                (* fromisoformat could not read git's answer *)
| OSError                   (* the log file cannot be opened or read *)
| UnicodeDecodeError.       (* the log file holds bytes that are not UTF-8 *)

Inductive git_call : Type :=
| ShowDate (revision : str)      (* git show --no-patch --format=%cI *)
| ShowAuthor (revision : str).   (* git show --no-patch --format=%ce *)

(** The repository.  The script asks it two things: the committer date
    ([%cI], given here as the date that [revisionDate] returns) and the
    committer e-mail ([%ce], the raw output that [revisionAuthor] strips);
    either call may raise.  A commit also has an author e-mail ([%ae]), which
    the script never asks for. *)
Record Git : Type := {
  commit_date : str -> exn + datetime;
  committer_email : str -> exn + str;
  author_email : str -> str
}.

Record world : Type := {
  out : str;                 (* everything printed *)
  err : str;                 (* everything written to sys.stderr *)
  calls : list git_call      (* the git commands run, latest first *)
}.

Inductive result (A : Type) : Type :=
| Ret (a : A)
| SysExit (code : Z)
| Uncaught (e : exn).
Arguments SysExit {A} code.
Arguments Uncaught {A} e.

Definition M (A : Type) : Type := world -> result A * world.

Definition ret {A} (a : A) : M A := fun w => (Ret a, w).

Definition bind {A B} (m : M A) (f : A -> M B) : M B :=
  fun w =>
    match m w with
    | (Ret a, w') => f a w'
    | (SysExit c, w') => (SysExit c, w')
    | (Uncaught e, w') => (Uncaught e, w')
    end.

Notation "x <- m ;; f" := (bind m (fun x => f))
  (at level 61, m at next level, right associativity).
Notation "m ;; f" := (bind m (fun _ => f))
  (at level 61, right associativity).

Definition exit {A} (code : Z) : M A := fun w => (SysExit code, w).
Definition raise {A} (e : exn) : M A := fun w => (Uncaught e, w).

Definition stderr_write (s : str) : M unit :=
  fun w => (Ret tt, {| out := out w; err := err w ++ s; calls := calls w |}).

Definition print (s : str) : M unit :=
  fun w =>
    (Ret tt, {| out := out w ++ s ++ [NL]; err := err w; calls := calls w |}).

Definition run_git (c : git_call) : M unit :=
  fun w => (Ret tt, {| out := out w; err := err w; calls := c :: calls w |}).

Definition lift {A} (x : exn + A) : M A :=
  match x with inl e => raise e | inr a => ret a end.

(** [for x in xs: body], the variables of the script threaded as [s]. *)
Fixpoint for_each {A S} (body : A -> S -> M S) (xs : list A) (s : S) : M S :=
  match xs with
  | [] => ret s
  | x :: xs' => s' <- body x s ;; for_each body xs' s'
  end.

(** The status the process ends with. *)
Definition exit_status {A} (r : result A) : Z :=
  match r with
  | Ret _ => 0
  | SysExit code => code mod 256
  | Uncaught _ => 1
  end%Z.

(** The value a computation returned, if it returned. *)
Definition value {A} (r : result A) : option A :=
  match r with Ret a => Some a | _ => None end.

Definition initial_world : world := {| out := []; err := []; calls := [] |}.

(** ** The script *)


(** An entry of [bugs] and of [bugsMissingReview]:
    [(revision, bugnumber, line)]. *)
Definition patch : Type := str * str * str.

(** The module-level variables. *)
Record vars : Type := {
  bugs : list patch;
  numReverts : nat;
  numOldUnrecognized : nat;
  numHasPeer : nat;
  numOldMissing : nat;
  numOldReviewerless : nat;
  numOldUnparsableReviewers : nat;
  numPeerAuthored : nat;
  bugsMissingReview : list patch;
  numKnownMissing : nat;
  numUnknownMissing : nat
}.

Definition initial_vars : vars :=
  {| bugs := []; numReverts := 0; numOldUnrecognized := 0; numHasPeer := 0;
     numOldMissing := 0; numOldReviewerless := 0;
     numOldUnparsableReviewers := 0; numPeerAuthored := 0;
     bugsMissingReview := []; numKnownMissing := 0; numUnknownMissing := 0 |}.

Definition set_bugs (l : list patch) (v : vars) : vars :=
  {| bugs := l; numReverts := numReverts v;
     numOldUnrecognized := numOldUnrecognized v; numHasPeer := numHasPeer v;
     numOldMissing := numOldMissing v;
     numOldReviewerless := numOldReviewerless v;
     numOldUnparsableReviewers := numOldUnparsableReviewers v;
     numPeerAuthored := numPeerAuthored v;
     bugsMissingReview := bugsMissingReview v;
     numKnownMissing := numKnownMissing v;
     numUnknownMissing := numUnknownMissing v |}.

Definition set_bugsMissingReview (l : list patch) (v : vars) : vars :=
  {| bugs := bugs v; numReverts := numReverts v;
     numOldUnrecognized := numOldUnrecognized v; numHasPeer := numHasPeer v;
     numOldMissing := numOldMissing v;
     numOldReviewerless := numOldReviewerless v;
     numOldUnparsableReviewers := numOldUnparsableReviewers v;
     numPeerAuthored := numPeerAuthored v;
     bugsMissingReview := l;
     numKnownMissing := numKnownMissing v;
     numUnknownMissing := numUnknownMissing v |}.

(** The counters, and [n += 1] on each. *)
Inductive counter : Type :=
| NumReverts | NumOldUnrecognized | NumHasPeer | NumOldMissing
| NumOldReviewerless | NumOldUnparsableReviewers | NumPeerAuthored
| NumKnownMissing | NumUnknownMissing.

Definition bump (c : counter) (v : vars) : vars :=
  let n (c' : counter) (x : nat) : nat :=
    match c, c' with
    | NumReverts, NumReverts | NumOldUnrecognized, NumOldUnrecognized
    | NumHasPeer, NumHasPeer | NumOldMissing, NumOldMissing
    | NumOldReviewerless, NumOldReviewerless
    | NumOldUnparsableReviewers, NumOldUnparsableReviewers
    | NumPeerAuthored, NumPeerAuthored | NumKnownMissing, NumKnownMissing
    | NumUnknownMissing, NumUnknownMissing => S x
    | _, _ => x
    end in
  {| bugs := bugs v; numReverts := n NumReverts (numReverts v);
     numOldUnrecognized := n NumOldUnrecognized (numOldUnrecognized v);
     numHasPeer := n NumHasPeer (numHasPeer v);
     numOldMissing := n NumOldMissing (numOldMissing v);
     numOldReviewerless := n NumOldReviewerless (numOldReviewerless v);
     numOldUnparsableReviewers :=
       n NumOldUnparsableReviewers (numOldUnparsableReviewers v);
     numPeerAuthored := n NumPeerAuthored (numPeerAuthored v);
     bugsMissingReview := bugsMissingReview v;
     numKnownMissing := n NumKnownMissing (numKnownMissing v);
     numUnknownMissing := n NumUnknownMissing (numUnknownMissing v) |}.

(** ** Vocabulary of the properties that needs no repository *)

(** [hay.startswith(needle)] and [needle in hay] *)
Fixpoint starts_with (needle hay : str) : bool :=
  match needle, hay with
  | [], _ => true
  | a :: needle', b :: hay' => char_eqb a b && starts_with needle' hay'
  | _ :: _, [] => false
  end.

Fixpoint contains (needle hay : str) : bool :=
  starts_with needle hay
  || match hay with
     | [] => false
     | _ :: hay' => contains needle hay'
     end.

Definition dot_free (src : str) : bool := negb (mem 46%N src).

(** What the pattern text [src] leaves of a subject it matches the start
    of. *)
Fixpoint eat (src s : str) : option str :=
  match src, s with
  | [], _ => Some s
  | a :: src', c :: s' => if atom_class a c then eat src' s' else None
  | _ :: _, [] => None
  end.

(** The reading of the annotation in the words of the specification: some
    reviewer named in the comma-separated annotation is on the peer list. *)
Definition names_a_peer (rString : str) : Prop :=
  exists entry r,
    In entry (split 44%N rString) /\ reviewerName entry = Some r
    /\ In r webIDLPeersRE.

(** What [parseReviewers] requires: a named peer with nothing unparsable
    before it. *)
Definition names_a_peer_first (rString : str) : Prop :=
  exists before entry after r,
    split 44%N rString = before ++ entry :: after
    /\ Forall (fun e => reviewerName e <> None) before
    /\ reviewerName entry = Some r /\ In r webIDLPeersRE.

(** From [w] to [w'] nothing was printed, and the error stream only grew. *)
Definition quiet (w w' : world) : Prop :=
  out w' = out w /\ exists msg, err w' = err w ++ msg.

(** From [w] to [w'] nothing was printed and a message was written to the
    error stream. *)
Definition complained (w w' : world) : Prop :=
  out w' = out w /\ exists msg, msg <> [] /\ err w' = err w ++ msg.

(** A revision as the patterns capture it: [[a-z0-9]+]. *)
Definition hash_like (r : str) : bool :=
  match r with
  | [] => false
  | _ => forallb lower_or_digit r
  end.

Definition call_revision (c : git_call) : str :=
  match c with ShowDate r | ShowAuthor r => r end.

(** From [w] to [w'] git was only given revisions of this form. *)
Definition asked_hashes (w w' : world) : Prop :=
  exists new,
    calls w' = new ++ calls w
    /\ Forall (fun c => hash_like (call_revision c) = true) new.

(** From [w] to [w'] git was only asked for commit dates. *)
Definition only_dates (w w' : world) : Prop :=
  exists dates, calls w' = map ShowDate dates ++ calls w.

Definition revision_of (p : patch) : str := fst (fst p).
Definition bugnumber_of (p : patch) : str := snd (fst p).
Definition line_of (p : patch) : str := snd p.

(** The text after the first occurrence of [needle] in [hay]. *)
Fixpoint after_first (needle hay : str) : option str :=
  if starts_with needle hay then Some (skipn (List.length needle) hay)
  else match hay with
       | [] => None
       | _ :: hay' => after_first needle hay'
       end.

(** The named groups of a pattern. *)
Fixpoint group_names (r : regex) : list string :=
  match r with
  | Cat r1 r2 | Or r1 r2 => group_names r1 ++ group_names r2
  | Opt r1 => group_names r1
  | Named name r1 => name :: group_names r1
  | _ => []
  end.

(** An entry of the annotation that parses and names nobody on the list. *)
Definition names_no_peer (entry : str) : Prop :=
  exists r, reviewerName entry = Some r /\ ~ In r webIDLPeersRE.

(** A reviewer name as it can stand in an entry: characters of the class
    of [reviewerPattern], the last one not among those that [rstrip]
    removes. *)
Definition plain_name (n : str) : bool :=
  match rev n with
  | [] => false
  | l :: _ => forallb reviewer_char n && negb (mem l (lit " .])"))
  end.

(** The value of a counter. *)
Definition get (c : counter) (v : vars) : nat :=
  match c with
  | NumReverts => numReverts v
  | NumOldUnrecognized => numOldUnrecognized v
  | NumHasPeer => numHasPeer v
  | NumOldMissing => numOldMissing v
  | NumOldReviewerless => numOldReviewerless v
  | NumOldUnparsableReviewers => numOldUnparsableReviewers v
  | NumPeerAuthored => numPeerAuthored v
  | NumKnownMissing => numKnownMissing v
  | NumUnknownMissing => numUnknownMissing v
  end.

Definition counter_eqb (a b : counter) : bool :=
  match a, b with
  | NumReverts, NumReverts | NumOldUnrecognized, NumOldUnrecognized
  | NumHasPeer, NumHasPeer | NumOldMissing, NumOldMissing
  | NumOldReviewerless, NumOldReviewerless
  | NumOldUnparsableReviewers, NumOldUnparsableReviewers
  | NumPeerAuthored, NumPeerAuthored | NumKnownMissing, NumKnownMissing
  | NumUnknownMissing, NumUnknownMissing => true
  | _, _ => false
  end.

(** ** Sample inputs *)

Definition ascii_decimal (c : char) : bool := in_range "0" "9" c.

(** The start of the run, 2026-01-01T00:00:00+00:00, a commit date seven
    months before it, 2025-06-01, and one six years before it, 2020-01-01. *)
Definition sample_now : datetime := (1767225600 * 1000000)%Z.
Definition recent_date : datetime := (1748736000 * 1000000)%Z.
Definition old_date : datetime := (1577836800 * 1000000)%Z.

(** A repository whose commits all have the date [date], the author
    [author] and the committer [committer]; git ends its answer with a
    newline. *)
Definition repo (date : datetime) (author committer : string) : Git :=
  {| commit_date := fun _ => inr date;
     committer_email := fun _ => inr (lit committer ++ [NL]);
     author_email := fun _ => lit author |}.

(** Recent commits, authored and committed by [email]. *)
Definition recent_repo (email : string) : Git := repo recent_date email email.

(** Recent commits written by a peer and committed by somebody else. *)
Definition landed_repo : Git :=
  repo recent_date "emilio@crisal.io" "release@example.org".

(** A log with a reviewed patch, a backout, the reviewerless bug 1968400 and
    the known bug 1966190. *)
Definition log_clean : str := lit
"aaa111 Bug 100 - Add a thing. r=smaug
ccc333 Backed out changeset aaa111
ddd444 Bug 1968400 - No reviewer
eee555 Bug 1966190 - comment r=bar,baz
".

(** Two recent patches reviewed by nobody on the peer list. *)
Definition log_two_missing : str := lit
"aaa111 Bug 100 - Add a thing. r=foo
bbb222 Bug 200 - Tweak. r=bar
".

(** A commit with an empty summary: [git log --oneline] prints the hash and
    a space. *)
Definition log_empty_summary : str :=
  lit "aaa111 Bug 100 - Add a thing. r=smaug" ++ [NL]
  ++ lit "abc1234 " ++ [NL].


Definition log_one_missing : str := lit
"aaa111 Bug 100 - Add a thing. r=foo
".

Definition patch_1968400 : patch :=
  (lit "ddd444", lit "1968400", lit "ddd444 Bug 1968400 - No reviewer").

Definition patch_100 : patch :=
  (lit "aaa111", lit "100", lit "aaa111 Bug 100 - Add a thing. r=smaug").

Definition patch_unparsable : patch :=
  (lit "fff666", lit "300", lit "fff666 Bug 300 - Fix r=dom core,smaug").

Section Script.

(** [\d] in a [str] pattern *)
Variable isdecimal : char -> bool.
(** [currentDate = datetime.now(timezone.utc)], evaluated once at start *)
Variable currentDate : datetime.
(** the repository [args.gitRepo] *)
Variable git : Git.

Definition revisionDate (revision : str) : M datetime :=
  run_git (ShowDate revision) ;; lift (commit_date git revision).

Definition numOldYears : nat := 3.

Definition dateIsOld (previousDate : datetime) : bool :=
  (timedelta_days (Z.of_nat (numOldYears * 365))
   <=? currentDate - previousDate)%Z.

(** [^(?P<revision>[a-z0-9]+)\s+(Fix for )?(Bug|bug) (?P<bugno>\d+)] *)
Definition bugPattern : regex :=
  Bol +++ Named "revision" (Plus lower_or_digit) +++ Plus isspace
  +++ Opt (atoms (lit "Fix for "))
  +++ Or (atoms (lit "Bug")) (atoms (lit "bug")) +++ atoms (lit " ")
  +++ Named "bugno" (Plus isdecimal).

(** The body of the loop over the lines of the log file. *)
Definition classifyLine (raw : str) (v : vars) : M vars :=
  let line := strip raw in
  match re_match bugPattern line with
  | Some m =>
      ret (set_bugs
             (bugs v ++ [(group "revision" m, group "bugno" m, line)]) v)
  | None =>
  match re_match backoutMergePattern line with
  | Some _ => ret (bump NumReverts v)
  | None =>
  match re_match unrecognizedPattern line with
  | Some m =>
      d <- revisionDate (group "revision" m) ;;
      if dateIsOld d then ret (bump NumOldUnrecognized v)
      else
        stderr_write (lit "Error: non-old unrecognized line: "
                      ++ group "summary" m ++ [NL]) ;;
        exit (-1)
  | None =>
      (* [match] is [None] here: evaluating [match.group("summary")] for the
         message raises before anything is written *)
      raise AttributeError
  end end end.

(** The body of the loop over [bugs]. *)
Definition reviewLine (p : patch) (v : vars) : M vars :=
  let '(revision, bugnumber, line) := p in
  match re_search rEqualPattern line with
  | Some m =>
      match parseReviewers (group "reviewer" m) with
      | OK => ret (bump NumHasPeer v)
      | BAD_PARSE =>
          d <- revisionDate revision ;;
          if dateIsOld d then ret (bump NumOldUnparsableReviewers v)
          else
            stderr_write (lit "Error: couldn't parse reviewers for non-old bug: "
                          ++ line ++ [NL]) ;;
            exit (-1)
      | MISSING =>
          d <- revisionDate revision ;;
          if dateIsOld d then ret (bump NumOldMissing v)
          else ret (set_bugsMissingReview (bugsMissingReview v ++ [p]) v)
      end
  | None =>
      d <- revisionDate revision ;;
      if dateIsOld d then ret (bump NumOldReviewerless v)
      else if str_eqb bugnumber (lit "1968400") then
        ret (bump NumPeerAuthored v)
      else
        stderr_write (lit "Error: non-old bug without reviewer string: "
                      ++ line ++ [NL]) ;;
        exit (-1)
  end.

Definition revisionAuthor (revision : str) : M str :=
  run_git (ShowAuthor revision) ;;
  author <- lift (committer_email git revision) ;;
  ret (strip author).

(** The body of the loop over [bugsMissingReview]. *)
Definition authorLine (p : patch) (v : vars) : M vars :=
  let '(revision, bugnumber, line) := p in
  author <- revisionAuthor revision ;;
  match re_match webIDLPeersEmailPattern author with
  | Some _ => ret (bump NumPeerAuthored v)
  | None =>
      if str_eqb bugnumber (lit "1966190") then ret (bump NumKnownMissing v)
      else if str_eqb bugnumber (lit "1979610") then
        ret (bump NumKnownMissing v)
      else
        let v' := bump NumUnknownMissing v in
        stderr_write (lit "MISSING WebIDL review for bug " ++ bugnumber
                      ++ lit ": " ++ line) ;;
        ret v'
  end.

(** The end of the script: the test of [numUnknownMissing] and the report. *)
Definition report (v : vars) : M unit :=
  if (0 <? numUnknownMissing v)%nat then
    stderr_write
      (lit "!!! Unknown non-old patches missing WebIDL review !!!") ;;
    exit (-1)
  else
    print (lit "Patches with WebIDL peer review: "
           ++ str_of_nat (numHasPeer v)) ;;
    print (lit "Patches missing WebIDL peer review, known issue: "
           ++ str_of_nat (numKnownMissing v)) ;;
    print (lit "Patches missing WebIDL peer review, but authored by peer: "
           ++ str_of_nat (numPeerAuthored v)) ;;
    print (lit "Old patches missing WebIDL peer review: "
           ++ str_of_nat (numOldMissing v)) ;;
    print (lit "Old patches without parsable reviewer strings: "
           ++ str_of_nat (numOldUnparsableReviewers v)) ;;
    print (lit "Old patches without reviewer strings: "
           ++ str_of_nat (numOldReviewerless v)) ;;
    print [] ;;
    print (lit "Patches that are backouts: " ++ str_of_nat (numReverts v)) ;;
    print (lit "Old unrecognized summaries: "
           ++ str_of_nat (numOldUnrecognized v)) ;;
    print [] ;;
    print (lit "(Old means more than " ++ str_of_nat numOldYears
           ++ lit " years old.)").

(** The three loops, on the text of the log file. *)
Definition classified (text : str) : M vars :=
  for_each classifyLine (readlines text) initial_vars.

Definition reviewed (v : vars) : M vars :=
  for_each reviewLine (bugs v) v.

Definition authored (v : vars) : M vars :=
  let v := set_bugs [] v in
  for_each authorLine (bugsMissingReview v) v.

Definition tallied (text : str) : M vars :=
  v <- classified text ;; v <- reviewed v ;; authored v.

Definition main (text : str) : M unit :=
  v <- tallied text ;; report v.


(** *** Vocabulary of the properties *)

Definition matches (r : regex) (s : str) : bool :=
  match re_match r s with Some _ => true | None => false end.

Definition commit_is_old (revision : str) : bool :=
  match commit_date git revision with
  | inr d => dateIsOld d
  | inl _ => false
  end.

(** The four outcomes of a summary line, tried in this order. *)
Inductive line_class : Type :=
| BugFix | BackoutMerge | OldUnrecognized | Error.

Definition line_class_of (line : str) : line_class :=
  if matches bugPattern line then BugFix
  else if matches backoutMergePattern line then BackoutMerge
  else match re_match unrecognizedPattern line with
       | Some m =>
           if commit_is_old (group "revision" m) then OldUnrecognized
           else Error
       | None => Error
       end.

(** What each outcome does to the variables of the script; an error leaves
    the loop with a non-zero status. *)
Definition outcome_of_class (c : line_class) (line : str) (v : vars)
    (r : result vars) : Prop :=
  match c with
  | BugFix =>
      exists revision bugno,
        r = Ret (set_bugs (bugs v ++ [(revision, bugno, line)]) v)
  | BackoutMerge => r = Ret (bump NumReverts v)
  | OldUnrecognized => r = Ret (bump NumOldUnrecognized v)
  | Error => (forall v', r <> Ret v') /\ exit_status r <> 0%Z
  end.

(** The entries that the first loop appends to [bugs], and the lines it
    classifies as bug fixes. *)
Definition bug_patch (raw : str) : list patch :=
  let line := strip raw in
  match re_match bugPattern line with
  | Some m => [(group "revision" m, group "bugno" m, line)]
  | None => []
  end.

Definition bug_patches (lines : list str) : list patch :=
  flat_map bug_patch lines.

Definition is_bug_line (raw : str) : bool := matches bugPattern (strip raw).

(** A patch of the second stage: its annotation names no peer and its commit
    is not old. *)
Definition missing_not_old (p : patch) : bool :=
  let '(revision, _, line) := p in
  match re_search rEqualPattern line with
  | Some m =>
      match parseReviewers (group "reviewer" m) with
      | MISSING =>
          match commit_date git revision with
          | inr d => negb (dateIsOld d)
          | inl _ => false
          end
      | _ => false
      end
  | None => false
  end.

(** The second loop counts the patch as having peer review, and does
    nothing else. *)
Definition counted_as_reviewed (p : patch) (v : vars) (w : world) : Prop :=
  reviewLine p v w = (Ret (bump NumHasPeer v), w).

(** Another repository answers like [git] as far as the script can tell
    through [dateIsOld]: the same failures, the same committers, and dates on
    the same side of the threshold. *)
Definition same_age (git' : Git) : Prop :=
  (forall revision,
      match commit_date git revision, commit_date git' revision with
      | inr d, inr d' => dateIsOld d = dateIsOld d'
      | inl e, inl e' => e = e'
      | _, _ => False
      end)
  /\ (forall revision,
         committer_email git revision = committer_email git' revision).

(** The patches that the third loop reports as unknown violations, and
    what it writes for each. *)
Definition unknown_violation (p : patch) : bool :=
  match committer_email git (revision_of p) with
  | inr author =>
      negb (matches webIDLPeersEmailPattern (strip author))
      && negb (str_eqb (bugnumber_of p) (lit "1966190"))
      && negb (str_eqb (bugnumber_of p) (lit "1979610"))
  | inl _ => false
  end.

Definition violation_message (p : patch) : str :=
  lit "MISSING WebIDL review for bug " ++ bugnumber_of p ++ lit ": "
  ++ line_of p.

Definition line_class_eqb (a b : line_class) : bool :=
  match a, b with
  | BugFix, BugFix | BackoutMerge, BackoutMerge
  | OldUnrecognized, OldUnrecognized | Error, Error => true
  | _, _ => false
  end.

(** The number of lines of a class. *)
Definition count_class (c : line_class) (lines : list str) : nat :=
  List.length
    (filter (fun raw => line_class_eqb (line_class_of (strip raw)) c) lines).

(** Where a bug-fix patch ends: the counter it lands in, in the second loop
    or, for a patch queued in [bugsMissingReview], in the third; [None] when
    the run stops at it. *)
Definition fate (p : patch) : option counter :=
  let '(revision, bugnumber, line) := p in
  match re_search rEqualPattern line with
  | Some m =>
      match parseReviewers (group "reviewer" m) with
      | OK => Some NumHasPeer
      | BAD_PARSE =>
          match commit_date git revision with
          | inr d =>
              if dateIsOld d then Some NumOldUnparsableReviewers else None
          | inl _ => None
          end
      | MISSING =>
          match commit_date git revision with
          | inr d =>
              if dateIsOld d then Some NumOldMissing
              else
                match committer_email git revision with
                | inr author =>
                    if matches webIDLPeersEmailPattern (strip author) then
                      Some NumPeerAuthored
                    else if str_eqb bugnumber (lit "1966190")
                            || str_eqb bugnumber (lit "1979610") then
                      Some NumKnownMissing
                    else Some NumUnknownMissing
                | inl _ => None
                end
          | inl _ => None
          end
      end
  | None =>
      match commit_date git revision with
      | inr d =>
          if dateIsOld d then Some NumOldReviewerless
          else if str_eqb bugnumber (lit "1968400") then Some NumPeerAuthored
          else None
      | inl _ => None
      end
  end.

Definition lands_in (c : counter) (p : patch) : bool :=
  match fate p with
  | Some c' => counter_eqb c' c
  | None => false
  end.

(** What each counter should hold at the end, read off the file. *)
Definition final_count (c : counter) (lines : list str) : nat :=
  match c with
  | NumReverts => count_class BackoutMerge lines
  | NumOldUnrecognized => count_class OldUnrecognized lines
  | _ => List.length (filter (lands_in c) (bug_patches lines))
  end.





(** The revisions whose date the first loop asks git for at a line, and
    the second loop at a patch. *)
Definition asked_date_1 (raw : str) : list str :=
  let line := strip raw in
  if matches bugPattern line then []
  else if matches backoutMergePattern line then []
  else match re_match unrecognizedPattern line with
       | Some m => [group "revision" m]
       | None => []
       end.

Definition asked_date_2 (p : patch) : list str :=
  match re_search rEqualPattern (line_of p) with
  | Some m =>
      match parseReviewers (group "reviewer" m) with
      | OK => []
      | _ => [revision_of p]
      end
  | None => [revision_of p]
  end.

(** The sum of the seven counters a bug-fix line can land in. *)
Definition seven (v : vars) : nat :=
  numHasPeer v + numOldUnparsableReviewers v + numOldMissing v
  + numOldReviewerless v + numPeerAuthored v + numKnownMissing v
  + numUnknownMissing v.

(** The lines of the report. *)
Definition report_lines (v : vars) : list str :=
  [ lit "Patches with WebIDL peer review: " ++ str_of_nat (numHasPeer v);
    lit "Patches missing WebIDL peer review, known issue: "
    ++ str_of_nat (numKnownMissing v);
    lit "Patches missing WebIDL peer review, but authored by peer: "
    ++ str_of_nat (numPeerAuthored v);
    lit "Old patches missing WebIDL peer review: "
    ++ str_of_nat (numOldMissing v);
    lit "Old patches without parsable reviewer strings: "
    ++ str_of_nat (numOldUnparsableReviewers v);
    lit "Old patches without reviewer strings: "
    ++ str_of_nat (numOldReviewerless v);
    [];
    lit "Patches that are backouts: " ++ str_of_nat (numReverts v);
    lit "Old unrecognized summaries: " ++ str_of_nat (numOldUnrecognized v);
    [];
    lit "(Old means more than " ++ str_of_nat numOldYears
    ++ lit " years old.)" ].

Definition report_text (v : vars) : str :=
  concat (map (fun l => l ++ [NL]) (report_lines v)).

(** ** Basic facts *)

Unset Implicit Arguments.

Lemma char_eqb_eq (a b : char) : char_eqb a b = true <-> a = b.
Proof. apply N.eqb_eq. Qed.

Lemma char_eqb_refl (a : char) : char_eqb a a = true.
Proof. apply N.eqb_refl. Qed.

Lemma str_eqb_eq (a b : str) : str_eqb a b = true <-> a = b.
Proof.
  revert b; induction a as [|x a IH]; intros [|y b]; simpl;
    try (split; [discriminate | congruence]); try tauto.
  rewrite andb_true_iff, char_eqb_eq, IH.
  split; [intros [-> ->]; reflexivity | intros H; injection H; auto].
Qed.

Lemma str_eqb_neq (a b : str) : str_eqb a b = false <-> a <> b.
Proof.
  rewrite <- str_eqb_eq. destruct (str_eqb a b); split; congruence.
Qed.

Lemma cons_neq_self {A} (x : A) (l : list A) : x :: l <> l.
Proof.
  intros H. apply (f_equal (@List.length A)) in H. simpl in H. lia.
Qed.

Lemma snoc_neq_self {A} (x : A) (l : list A) : l ++ [x] <> l.
Proof.
  intros H. apply (f_equal (@List.length A)) in H.
  rewrite length_app in H. simpl in H. lia.
Qed.

(** *** The monad *)

Lemma bind_Ret {A B} (m : M A) (f : A -> M B) w a w1 :
  m w = (Ret a, w1) -> bind m f w = f a w1.
Proof. unfold bind. intros ->. reflexivity. Qed.

Lemma bind_Ret_inv {A B} (m : M A) (f : A -> M B) w b w' :
  bind m f w = (Ret b, w') ->
  exists a w1, m w = (Ret a, w1) /\ f a w1 = (Ret b, w').
Proof.
  unfold bind. destruct (m w) as [[a|c|e] w1]; try discriminate.
  intros H. exists a, w1. auto.
Qed.

Lemma for_each_cons {A S} (body : A -> S -> M S) x xs s w :
  for_each body (x :: xs) s w
  = match body x s w with
    | (Ret s1, w1) => for_each body xs s1 w1
    | (SysExit c, w1) => (SysExit c, w1)
    | (Uncaught e, w1) => (Uncaught e, w1)
    end.
Proof. reflexivity. Qed.

(** An invariant of the variables and the world, indexed by the items
    already handled, holds when the loop ends. *)
Lemma for_each_invariant {A S} (body : A -> S -> M S)
    (I : list A -> S -> world -> Prop) :
  (forall done x s w s1 w1,
      I done s w -> body x s w = (Ret s1, w1) -> I (done ++ [x]) s1 w1) ->
  forall xs done s w s' w',
    I done s w -> for_each body xs s w = (Ret s', w') -> I (done ++ xs) s' w'.
Proof.
  intros Hstep. induction xs as [|x xs IH]; intros done s w s' w' HI Hrun.
  - injection Hrun as <- <-. rewrite app_nil_r. exact HI.
  - rewrite for_each_cons in Hrun.
    destruct (body x s w) as [[s1|c|e] w1] eqn:Hx; try discriminate.
    replace (done ++ x :: xs) with ((done ++ [x]) ++ xs)
      by (rewrite <- app_assoc; reflexivity).
    eapply IH; eauto.
Qed.

(** A property of the world that every iteration keeps, whatever way it
    ends, holds however the loop ends. *)
Lemma for_each_world {A S} (body : A -> S -> M S) (R : world -> world -> Prop) :
  (forall w, R w w) ->
  (forall w1 w2 w3, R w1 w2 -> R w2 w3 -> R w1 w3) ->
  (forall x s w, R w (snd (body x s w))) ->
  forall xs s w, R w (snd (for_each body xs s w)).
Proof.
  intros Hrefl Htrans Hstep. induction xs as [|x xs IH]; intros s w.
  - apply Hrefl.
  - rewrite for_each_cons. specialize (Hstep x s w).
    destruct (body x s w) as [[s1|c|e] w1]; simpl in *; auto.
    eapply Htrans; [exact Hstep | apply IH].
Qed.

(** ** The date test *)

Lemma dateIsOld_iff (d : datetime) :
  dateIsOld d = true <-> (timedelta_days 1095 <= currentDate - d)%Z.
Proof. unfold dateIsOld. rewrite Z.leb_le. reflexivity. Qed.

(** ** The end of the run *)

Lemma report_clean (v : vars) (w : world) :
  numUnknownMissing v = 0 ->
  report v w
  = (Ret tt, {| out := out w ++ report_text v; err := err w;
                calls := calls w |}).
Proof.
  intros H0. unfold report. rewrite H0.
  cbv [Nat.ltb Nat.leb bind print report_text report_lines map concat out err
       calls].
  repeat rewrite <- app_assoc. rewrite app_nil_r. reflexivity.
Qed.

Lemma report_unknown (v : vars) (w : world) :
  0 < numUnknownMissing v ->
  report v w
  = (SysExit (-1),
     {| out := out w;
        err := err w
               ++ lit "!!! Unknown non-old patches missing WebIDL review !!!";
        calls := calls w |}).
Proof.
  intros H0. unfold report.
  destruct (Nat.ltb_spec 0 (numUnknownMissing v)) as [_|Hle]; [|lia].
  reflexivity.
Qed.

(** C1. When the three loops end without an error exit, the script exits
    with a non-zero status if [numUnknownMissing] is positive (after the
    banner on the error stream, nothing printed), and otherwise prints the
    report of the counters and ends with status zero. *)
Theorem exit_after_tally (text : str) (w : world) (v : vars) (w' : world) :
  tallied text w = (Ret v, w') ->
  (0 < numUnknownMissing v ->
   main text w
   = (SysExit (-1),
      {| out := out w';
         err := err w'
                ++ lit "!!! Unknown non-old patches missing WebIDL review !!!";
         calls := calls w' |})
   /\ exit_status (fst (main text w)) <> 0%Z)
  /\ (numUnknownMissing v = 0 ->
      main text w
      = (Ret tt, {| out := out w' ++ report_text v; err := err w';
                    calls := calls w' |})
      /\ exit_status (fst (main text w)) = 0%Z).
Proof.
  intros Htally. unfold main. rewrite (bind_Ret _ _ _ _ _ Htally). split.
  - intros Hpos. rewrite report_unknown by exact Hpos. split; [reflexivity|].
    simpl. discriminate.
  - intros Hzero. rewrite report_clean by exact Hzero. split; reflexivity.
Qed.

(** ** The classification of the summary lines *)

Lemma outcome_of_class_unique (c c' : line_class) line v r :
  outcome_of_class c line v r -> outcome_of_class c' line v r -> c = c'.
Proof.
  assert (Hr : forall a b : vars, numReverts a <> numReverts b ->
                                  @Ret vars a <> Ret b) by congruence.
  assert (Hu : forall a b : vars,
             numOldUnrecognized a <> numOldUnrecognized b ->
             @Ret vars a <> Ret b) by congruence.
  destruct c, c'; simpl; intros H H'; try reflexivity; exfalso;
    repeat match goal with
           | H : exists _, _ |- _ => destruct H
           | H : _ /\ _ |- _ => destruct H
           end; subst;
    try match goal with
        | H : forall v', _ <> Ret v' |- _ => apply (H _ eq_refl)
        end;
    match goal with
    | H : Ret _ = Ret _ |- _ =>
        first [ apply Hr in H; [assumption | simpl; lia]
              | apply Hu in H; [assumption | simpl; lia] ]
    end.
Qed.

Lemma classifyLine_outcome (raw : str) (v : vars) (w : world) :
  outcome_of_class (line_class_of (strip raw)) (strip raw) v
    (fst (classifyLine raw v w)).
Proof.
  unfold classifyLine, line_class_of, matches.
  destruct (re_match bugPattern (strip raw)) as [m|]; simpl.
  { eauto. }
  destruct (re_match backoutMergePattern (strip raw)) as [m|]; simpl.
  { reflexivity. }
  destruct (re_match unrecognizedPattern (strip raw)) as [m|]; simpl.
  - unfold commit_is_old, revisionDate, bind, run_git, lift, raise, ret.
    destruct (commit_date git (group "revision" m)) as [e|d]; simpl.
    + split; [discriminate | lia].
    + destruct (dateIsOld d); simpl; [reflexivity|].
      split; [discriminate | discriminate].
  - split; [discriminate | discriminate].
Qed.

(** C4. Every summary line gets exactly one of the four outcomes, tried in
    the order bug fix, backout or merge, unrecognized but old, error: the
    effect of the loop body on the variables is the effect of one class only,
    the class that [line_class_of] computes in that order; a line matching the
    bug pattern is a bug fix whatever else it matches. *)
Theorem classification_order (raw : str) (v : vars) (w : world)
    (c : line_class) :
  outcome_of_class c (strip raw) v (fst (classifyLine raw v w))
  <-> c = line_class_of (strip raw).
Proof.
  split.
  - intros H. eapply outcome_of_class_unique; [exact H|].
    apply classifyLine_outcome.
  - intros ->. apply classifyLine_outcome.
Qed.

(** A line that matches none of the three patterns: the body raises while it
    builds the message, and nothing reaches the error stream. *)
Lemma hashless_line_raises (raw : str) (v : vars) (w : world) :
  re_match bugPattern (strip raw) = None ->
  re_match backoutMergePattern (strip raw) = None ->
  re_match unrecognizedPattern (strip raw) = None ->
  classifyLine raw v w = (Uncaught AttributeError, w).
Proof.
  intros H1 H2 H3. unfold classifyLine. rewrite H1, H2, H3. reflexivity.
Qed.

(** ** The matcher on the script's patterns *)

Lemma rmatch_atoms (src : str) pos s cs k :
  rmatch (atoms src) pos s cs k
  = match eat src s with
    | Some s' => k (pos + List.length src) s' cs
    | None => None
    end.
Proof.
  revert pos s. induction src as [|a src IH]; intros pos s; simpl.
  - rewrite Nat.add_0_r. reflexivity.
  - destruct s as [|c s]; [reflexivity|].
    destruct (atom_class a c); [|reflexivity].
    rewrite IH. rewrite Nat.add_succ_r. reflexivity.
Qed.

Lemma eat_dot_free (src s s' : str) :
  dot_free src = true -> (eat src s = Some s' <-> s = src ++ s').
Proof.
  unfold dot_free, mem. revert s.
  induction src as [|a src IH]; intros s Hfree; simpl.
  - split; congruence.
  - simpl in Hfree. rewrite negb_true_iff, orb_false_iff in Hfree.
    destruct Hfree as [Ha Hsrc]. unfold atom_class.
    replace (char_eqb a 46%N) with false
      by (unfold char_eqb in *; rewrite N.eqb_sym; symmetry; exact Ha).
    destruct s as [|c s]; [split; discriminate|].
    destruct (char_eqb a c) eqn:Hac.
    + apply char_eqb_eq in Hac. subst c. rewrite IH.
      * split; [intros ->; reflexivity | intros H; injection H; auto].
      * rewrite negb_true_iff. exact Hsrc.
    + split; [discriminate|]. intros H. injection H as Hc _.
      subst c. rewrite char_eqb_refl in Hac. discriminate.
Qed.

Lemma eat_starts_with (src s s' : str) :
  dot_free src = true -> eat src s = Some s' -> starts_with src s = true.
Proof.
  intros Hfree Heat. apply (eat_dot_free _ _ _ Hfree) in Heat. subst s.
  clear Hfree. induction src as [|a src IH]; simpl; [reflexivity|].
  rewrite char_eqb_refl. exact IH.
Qed.

Lemma star_spec (p : char -> bool) pos s cs k m :
  star p pos s cs k = Some m ->
  exists n, Forall (fun c => p c = true) (firstn n s)
            /\ k (pos + n) (skipn n s) cs = Some m.
Proof.
  revert pos. induction s as [|c s IH]; intros pos H; simpl in H.
  - exists 0. rewrite Nat.add_0_r. auto.
  - destruct (p c) eqn:Hc.
    + destruct (star p (S pos) s cs k) as [m'|] eqn:Hs.
      * injection H as ->. destruct (IH _ Hs) as (n & Hall & Hk).
        exists (S n). simpl. rewrite Nat.add_succ_r. auto.
      * exists 0. rewrite Nat.add_0_r. auto.
    + exists 0. rewrite Nat.add_0_r. auto.
Qed.

Lemma rmatch_Eol_accept pos s cs m :
  rmatch Eol pos s cs accept = Some m -> m = cs /\ (s = [] \/ s = [NL]).
Proof.
  simpl. destruct s as [|c [|c' s]]; unfold accept; try discriminate.
  - intros H; injection H as <-. auto.
  - destruct (char_eqb c NL) eqn:Hc; [|discriminate].
    apply char_eqb_eq in Hc. subst c. intros H; injection H as <-. auto.
Qed.

(** A named group over [p+] followed by [$]: the group holds characters of
    the class only. *)
Lemma named_plus_eol (name : string) (p : char -> bool) pos s cs m :
  rmatch (Named name (Plus p) +++ Eol) pos s cs accept = Some m ->
  exists g, m = (name, g) :: cs /\ Forall (fun c => p c = true) g.
Proof.
  simpl. destruct s as [|c s]; [discriminate|].
  destruct (p c) eqn:Hc; [|discriminate].
  intros H. apply star_spec in H. destruct H as (n & Hall & H).
  replace (S pos + n - pos) with (S n) in H by lia.
  apply rmatch_Eol_accept in H. destruct H as [-> _].
  exists (c :: firstn n s). split; [reflexivity|]. constructor; assumption.
Qed.

Lemma group_head (name : string) (g : str) (cs : captures) :
  group name ((name, g) :: cs) = g.
Proof. simpl. rewrite String.eqb_refl. reflexivity. Qed.

Lemma reviewerPattern_group (r : str) (m : captures) :
  re_match reviewerPattern r = Some m ->
  Forall (fun c => reviewer_char c = true) (group "reviewer" m).
Proof.
  unfold re_match, reviewerPattern.
  change (rmatch (Bol +++ ?r1) 0 r [] accept) with (rmatch r1 0 r [] accept).
  change (rmatch (Opt ?r1 +++ ?r2) 0 r [] accept)
    with (match rmatch r1 0 r [] (fun pos s cs => rmatch r2 pos s cs accept)
          with Some x => Some x
          | None => rmatch r2 0 r [] accept
          end).
  set (K := fun pos s cs =>
              rmatch (Named "reviewer" (Plus reviewer_char) +++ Eol) pos s cs
                accept).
  assert (HK : forall pos s cs, K pos s cs = Some m ->
               Forall (fun c => reviewer_char c = true) (group "reviewer" m)).
  { intros pos s cs H. apply named_plus_eol in H.
    destruct H as (g & -> & Hg). rewrite group_head. exact Hg. }
  change (rmatch (Or ?a ?b) 0 r [] K)
    with (match rmatch a 0 r [] K with
          | Some x => Some x
          | None => rmatch b 0 r [] K
          end).
  rewrite !rmatch_atoms.
  destruct (eat (lit "r=") r) as [s1|].
  - destruct (K _ s1 []) eqn:H1.
    + intros H; injection H as <-. eapply HK; eauto.
    + destruct (eat (lit "sr=") r) as [s2|].
      * destruct (K _ s2 []) eqn:H2.
        -- intros H; injection H as <-. eapply HK; eauto.
        -- apply HK.
      * apply HK.
  - destruct (eat (lit "sr=") r) as [s2|].
    + destruct (K _ s2 []) eqn:H2.
      * intros H; injection H as <-. eapply HK; eauto.
      * apply HK.
    + apply HK.
Qed.

Lemma rmatch_joined (names : list str) pos s cs k :
  names <> [] ->
  rmatch (joined names) pos s cs k <> None
  <-> exists n s', In n names /\ eat n s = Some s'
                   /\ k (pos + List.length n) s' cs <> None.
Proof.
  induction names as [|n names IH]; [congruence|]. intros _.
  destruct names as [|n2 names].
  - simpl joined. rewrite rmatch_atoms. split.
    + destruct (eat n s) as [s'|] eqn:E; [|congruence].
      intros H. exists n, s'. simpl. auto.
    + intros (n' & s' & [<-|[]] & -> & H). exact H.
  - change (rmatch (joined (n :: n2 :: names)) pos s cs k)
      with (match rmatch (atoms n) pos s cs k with
            | Some x => Some x
            | None => rmatch (joined (n2 :: names)) pos s cs k
            end).
    rewrite rmatch_atoms. split.
    + destruct (eat n s) as [s'|] eqn:Hn.
      * destruct (k (pos + List.length n) s' cs) eqn:Hk.
        -- intros _. exists n, s'. rewrite Hk. simpl. split; [auto|].
           split; [assumption | discriminate].
        -- intros H. apply IH in H; [|discriminate].
           destruct H as (n' & s2 & Hin & H). exists n', s2.
           split; [right; exact Hin | exact H].
      * intros H. apply IH in H; [|discriminate].
        destruct H as (n' & s2 & Hin & H). exists n', s2.
        split; [right; exact Hin | exact H].
    + intros (n' & s' & [<-|Hin] & Heat & Hk).
      * rewrite Heat. destruct (k (pos + List.length n) s' cs); congruence.
      * assert (H : rmatch (joined (n2 :: names)) pos s cs k <> None).
        { apply IH; [discriminate|]. exists n', s'. auto. }
        destruct (eat n s) as [s1|]; [|exact H].
        destruct (k (pos + List.length n) s1 cs); [discriminate | exact H].
Qed.

Lemma Eol_accept_iff pos s cs :
  rmatch Eol pos s cs accept <> None <-> s = [] \/ s = [NL].
Proof.
  split.
  - destruct (rmatch Eol pos s cs accept) eqn:H; [|congruence].
    intros _. apply rmatch_Eol_accept in H. tauto.
  - intros [-> | ->]; discriminate.
Qed.

Lemma peers_dot_free (n : str) : In n webIDLPeersRE -> dot_free n = true.
Proof.
  assert (H : forallb dot_free webIDLPeersRE = true) by reflexivity.
  rewrite forallb_forall in H. apply H.
Qed.

(** [webIDLPeersPattern] accepts the names of the list, and a name of the
    list followed by a newline. *)
Lemma isPeer_iff (r : str) :
  isPeer r = true
  <-> exists n, In n webIDLPeersRE /\ (r = n \/ r = n ++ [NL]).
Proof.
  unfold isPeer, re_match, webIDLPeersPattern.
  change (rmatch (Bol +++ ?a +++ Eol) 0 r [] accept)
    with (rmatch a 0 r [] (fun pos s cs => rmatch Eol pos s cs accept)).
  set (k := fun pos s cs => rmatch Eol pos s cs accept).
  assert (Hm : rmatch (joined webIDLPeersRE) 0 r [] k <> None
               <-> exists n, In n webIDLPeersRE /\ (r = n \/ r = n ++ [NL])).
  { rewrite rmatch_joined by discriminate. split.
    - intros (n & s' & Hin & Heat & Hk). exists n. split; [exact Hin|].
      apply (eat_dot_free _ _ _ (peers_dot_free _ Hin)) in Heat.
      apply Eol_accept_iff in Hk. destruct Hk as [-> | ->].
      + left. rewrite app_nil_r in Heat. exact Heat.
      + right. exact Heat.
    - intros (n & Hin & Hr). exists n.
      exists (if str_eqb r n then [] else [NL]). split; [exact Hin|]. split.
      + apply (eat_dot_free _ _ _ (peers_dot_free _ Hin)).
        destruct Hr as [-> | ->].
        * rewrite (proj2 (str_eqb_eq n n) eq_refl), app_nil_r. reflexivity.
        * destruct (str_eqb (n ++ [NL]) n) eqn:E; [|reflexivity].
          apply str_eqb_eq in E. exfalso. exact (snoc_neq_self _ _ E).
      + apply Eol_accept_iff. destruct (str_eqb r n); auto. }
  destruct (rmatch (joined webIDLPeersRE) 0 r [] k).
  - split; [intros _; apply Hm; discriminate | reflexivity].
  - split; [discriminate|]. intros H. apply Hm in H. congruence.
Qed.

Lemma peers_no_newline (n : str) : In n webIDLPeersRE -> ~ In NL n.
Proof.
  assert (H : forallb (fun n => negb (mem NL n)) webIDLPeersRE = true)
    by reflexivity.
  rewrite forallb_forall in H. intros Hin HNL. specialize (H _ Hin).
  rewrite negb_true_iff in H. unfold mem in H.
  assert (existsb (char_eqb NL) n = true); [|congruence].
  apply existsb_exists. exists NL. split; [exact HNL | apply char_eqb_refl].
Qed.

Lemma isPeer_member (r : str) :
  ~ In NL r -> (isPeer r = true <-> In r webIDLPeersRE).
Proof.
  intros Hnl. rewrite isPeer_iff. split.
  - intros (n & Hin & [-> | ->]); [exact Hin|].
    exfalso. apply Hnl. apply in_or_app. right. left. reflexivity.
  - intros Hin. exists r. auto.
Qed.

(** The names that [parseReviewers] tests hold no newline. *)
Lemma reviewerName_no_newline (entry r : str) :
  reviewerName entry = Some r -> ~ In NL r.
Proof.
  unfold reviewerName.
  set (x := rstrip_by _ (strip_by _ entry)).
  destruct (re_match reviewerPattern x) as [m|] eqn:Hm.
  - intros H; injection H as <-. apply reviewerPattern_group in Hm.
    rewrite Forall_forall in Hm. intros Hin. specialize (Hm _ Hin).
    discriminate.
  - destruct (str_eqb x (lit "emilio DONTBUILD")); [|discriminate].
    intros H; injection H as <-. simpl. unfold NL.
    intros H; repeat (destruct H as [H|H]; [discriminate|]). exact H.
Qed.

Lemma reviewerName_peer (entry r : str) :
  reviewerName entry = Some r -> (isPeer r = true <-> In r webIDLPeersRE).
Proof. intros H. apply isPeer_member. eapply reviewerName_no_newline; eauto. Qed.

(** ** The reviewer annotation *)

Lemma parseEntries_OK (entries : list str) :
  parseEntries entries = OK
  <-> exists before entry after r,
        entries = before ++ entry :: after
        /\ Forall (fun e => reviewerName e <> None) before
        /\ reviewerName entry = Some r /\ In r webIDLPeersRE.
Proof.
  induction entries as [|e entries IH]; simpl.
  - split; [discriminate|].
    intros (before & entry & after & r & H & _). destruct before; discriminate.
  - destruct (reviewerName e) as [r|] eqn:He.
    + destruct (isPeer r) eqn:Hr.
      * split; [intros _ | reflexivity].
        exists [], e, entries, r. repeat split; auto.
        apply (reviewerName_peer _ _ He). exact Hr.
      * rewrite IH. split.
        -- intros (before & entry & after & r' & -> & Hb & Hn & Hin).
           exists (e :: before), entry, after, r'. repeat split; auto.
           constructor; [congruence | exact Hb].
        -- intros (before & entry & after & r' & Heq & Hb & Hn & Hin).
           destruct before as [|b before]; simpl in Heq;
             injection Heq as <- ->.
           ++ exfalso. rewrite He in Hn. injection Hn as <-.
              apply (reviewerName_peer _ _ He) in Hin. congruence.
           ++ inversion Hb; subst. exists before, entry, after, r'. auto.
    + split; [discriminate|].
      intros (before & entry & after & r' & Heq & Hb & Hn & Hin).
      destruct before as [|b before]; simpl in Heq; injection Heq as <- ->.
      * congruence.
      * inversion Hb; subst. congruence.
Qed.

Lemma parseReviewers_OK (rString : str) :
  parseReviewers rString = OK <-> names_a_peer_first rString.
Proof. unfold parseReviewers, names_a_peer_first. apply parseEntries_OK. Qed.

Lemma world_calls_neq (w : world) (r1 r2 : str) (c : git_call) :
  {| out := r1; err := r2; calls := c :: calls w |} <> w.
Proof.
  intros H. apply (f_equal calls) in H. simpl in H.
  exact (cons_neq_self _ _ H).
Qed.

(** The second loop asks git for the date of every patch that it does not
    count as reviewed by a peer. *)
Lemma reviewLine_counted (revision bugnumber line : str) (m : captures)
    (v : vars) (w : world) :
  re_search rEqualPattern line = Some m ->
  counted_as_reviewed (revision, bugnumber, line) v w
  <-> parseReviewers (group "reviewer" m) = OK.
Proof.
  intros Hm. unfold counted_as_reviewed, reviewLine. rewrite Hm.
  destruct (parseReviewers (group "reviewer" m)).
  - split; reflexivity.
  - split; [|discriminate].
    unfold revisionDate, bind, run_git, lift, raise, ret, stderr_write, exit.
    destruct (commit_date git revision) as [e|d]; [discriminate|].
    destruct (dateIsOld d); [|discriminate].
    intros H. apply (f_equal snd) in H. simpl in H.
    exfalso. exact (world_calls_neq _ _ _ _ H).
  - split; [|discriminate].
    unfold revisionDate, bind, run_git, lift, raise, ret.
    destruct (commit_date git revision) as [e|d]; [discriminate|].
    destruct (dateIsOld d); intros H; apply (f_equal snd) in H; simpl in H;
      exfalso; exact (world_calls_neq _ _ _ _ H).
Qed.

(** C3, as the script has it. A bug-fix line with a reviewer annotation is
    counted as having peer review if and only if some entry of the
    comma-separated annotation names a member of the peer list and every
    entry before it parses as a reviewer name. *)
Theorem peer_review_counted (revision bugnumber line : str) (m : captures)
    (v : vars) (w : world) :
  re_search rEqualPattern line = Some m ->
  counted_as_reviewed (revision, bugnumber, line) v w
  <-> names_a_peer_first (group "reviewer" m).
Proof.
  intros Hm. rewrite (reviewLine_counted _ _ _ _ _ _ Hm).
  apply parseReviewers_OK.
Qed.

(** ** Lines without a reviewer annotation *)

Lemma rmatch_Cat (r1 r2 : regex) pos s cs k :
  rmatch (r1 +++ r2) pos s cs k
  = rmatch r1 pos s cs (fun pos' s' cs' => rmatch r2 pos' s' cs' k).
Proof. reflexivity. Qed.

Lemma no_annotation (line : str) :
  contains (lit "r=") line = false -> re_search rEqualPattern line = None.
Proof.
  unfold re_search. generalize 0 as pos.
  induction line as [|c line IH]; intros pos H.
  - reflexivity.
  - change (contains (lit "r=") (c :: line))
      with (starts_with (lit "r=") (c :: line) || contains (lit "r=") line)
      in H.
    apply orb_false_iff in H. destruct H as [Hs Hc].
    change (search_from rEqualPattern pos (c :: line))
      with (match rmatch rEqualPattern pos (c :: line) [] accept with
            | Some cs => Some cs
            | None => search_from rEqualPattern (S pos) line
            end).
    unfold rEqualPattern at 1. rewrite rmatch_Cat, rmatch_atoms.
    destruct (eat (lit "r=") (c :: line)) as [s'|] eqn:He.
    + apply eat_starts_with in He; [congruence | reflexivity].
    + apply IH. exact Hc.
Qed.

(** C9. A bug-fix line without the substring "r=" whose commit is not old
    is exempted if and only if its bug number is exactly 1968400: it is then
    counted as peer-authored with no look-up in the repository beyond the
    age test that makes the commit not old, whose call is the only one
    logged; any other such line writes an error message and exits with
    status -1. *)
Theorem reviewerless_rule (revision bugnumber line : str) (d : datetime)
    (v : vars) (w : world) :
  contains (lit "r=") line = false ->
  commit_date git revision = inr d ->
  dateIsOld d = false ->
  (bugnumber = lit "1968400" ->
   reviewLine (revision, bugnumber, line) v w
   = (Ret (bump NumPeerAuthored v),
      {| out := out w; err := err w;
         calls := ShowDate revision :: calls w |}))
  /\ (bugnumber <> lit "1968400" ->
      reviewLine (revision, bugnumber, line) v w
      = (SysExit (-1),
         {| out := out w;
            err := err w ++ lit "Error: non-old bug without reviewer string: "
                   ++ line ++ [NL];
            calls := ShowDate revision :: calls w |})).
Proof.
  intros Hline Hdate Hold. unfold reviewLine.
  rewrite (no_annotation _ Hline).
  unfold revisionDate, bind, run_git, lift, ret. rewrite Hdate, Hold.
  split; intros Hbug.
  - rewrite (proj2 (str_eqb_eq _ _) Hbug). reflexivity.
  - rewrite (proj2 (str_eqb_neq _ _) Hbug). reflexivity.
Qed.

(** ** Where the bug-fix lines are counted *)

Lemma length_bug_patches (lines : list str) :
  List.length (bug_patches lines) = List.length (filter is_bug_line lines).
Proof.
  unfold bug_patches. induction lines as [|raw lines IH]; [reflexivity|].
  simpl. rewrite length_app, IH. unfold bug_patch, is_bug_line, matches.
  destruct (re_match bugPattern (strip raw)); reflexivity.
Qed.

Lemma classifyLine_vars (raw : str) (v : vars) (w : world) v' w' :
  classifyLine raw v w = (Ret v', w') ->
  bugs v' = bugs v ++ bug_patch raw
  /\ seven v' = seven v /\ bugsMissingReview v' = bugsMissingReview v.
Proof.
  unfold classifyLine, bug_patch.
  destruct (re_match bugPattern (strip raw)) as [m|].
  { intros H; injection H as <- <-. auto. }
  rewrite app_nil_r.
  destruct (re_match backoutMergePattern (strip raw)) as [m|].
  { intros H; injection H as <- <-. auto. }
  destruct (re_match unrecognizedPattern (strip raw)) as [m|];
    [|discriminate].
  unfold revisionDate, bind, run_git, lift, raise, ret.
  destruct (commit_date git (group "revision" m)) as [e|d]; [discriminate|].
  destruct (dateIsOld d); [|discriminate].
  intros H; injection H as <- <-. auto.
Qed.

Lemma classified_vars (text : str) (w : world) v w' :
  classified text w = (Ret v, w') ->
  bugs v = bug_patches (readlines text)
  /\ seven v = 0 /\ bugsMissingReview v = [].
Proof.
  intros H.
  refine (for_each_invariant classifyLine
            (fun done v _ => bugs v = bug_patches done /\ seven v = 0
                             /\ bugsMissingReview v = [])
            _ (readlines text) [] initial_vars w v w' _ H); [| auto].
  intros done x s w0 s1 w1 (Hb & Hs & Hm) Hx.
  apply classifyLine_vars in Hx. destruct Hx as (Hb' & Hs' & Hm').
  unfold bug_patches. rewrite flat_map_app. simpl. rewrite app_nil_r.
  fold (bug_patches done). rewrite <- Hb. repeat split; congruence.
Qed.

Lemma reviewLine_vars (p : patch) (v : vars) (w : world) v' w' :
  reviewLine p v w = (Ret v', w') ->
  bugs v' = bugs v
  /\ seven v' + List.length (bugsMissingReview v')
     = S (seven v + List.length (bugsMissingReview v))
  /\ bugsMissingReview v'
     = bugsMissingReview v ++ (if missing_not_old p then [p] else []).
Proof.
  destruct p as [[revision bugnumber] line].
  unfold reviewLine, missing_not_old.
  destruct (re_search rEqualPattern line) as [m|].
  - destruct (parseReviewers (group "reviewer" m)).
    + intros H; injection H as <- <-. rewrite app_nil_r.
      unfold seven; simpl. repeat split; lia.
    + unfold revisionDate, bind, run_git, lift, raise, ret.
      destruct (commit_date git revision) as [e|d]; [discriminate|].
      destruct (dateIsOld d); [|discriminate].
      intros H; injection H as <- <-. rewrite app_nil_r.
      unfold seven; simpl. repeat split; lia.
    + unfold revisionDate, bind, run_git, lift, raise, ret.
      destruct (commit_date git revision) as [e|d]; [discriminate|].
      destruct (dateIsOld d); intros H; injection H as <- <-; simpl.
      * rewrite app_nil_r. unfold seven; simpl. repeat split; lia.
      * rewrite length_app. unfold seven; simpl. repeat split; lia.
  - unfold revisionDate, bind, run_git, lift, raise, ret.
    destruct (commit_date git revision) as [e|d]; [discriminate|].
    destruct (dateIsOld d).
    + intros H; injection H as <- <-. rewrite app_nil_r.
      unfold seven; simpl. repeat split; lia.
    + destruct (str_eqb bugnumber (lit "1968400")); [|discriminate].
      intros H; injection H as <- <-. rewrite app_nil_r.
      unfold seven; simpl. repeat split; lia.
Qed.

Lemma reviewed_vars (v0 : vars) (w : world) v w' :
  reviewed v0 w = (Ret v, w') ->
  bugs v = bugs v0
  /\ seven v + List.length (bugsMissingReview v)
     = seven v0 + List.length (bugsMissingReview v0) + List.length (bugs v0)
  /\ bugsMissingReview v
     = bugsMissingReview v0 ++ filter missing_not_old (bugs v0).
Proof.
  intros H. unfold reviewed in H.
  refine (for_each_invariant reviewLine
            (fun done v _ =>
               bugs v = bugs v0
               /\ seven v + List.length (bugsMissingReview v)
                  = seven v0 + List.length (bugsMissingReview v0)
                    + List.length done
               /\ bugsMissingReview v
                  = bugsMissingReview v0 ++ filter missing_not_old done)
            _ (bugs v0) [] v0 w v w' _ H).
  - intros done x s w0 s1 w1 (Hb & Hs & Hm) Hx.
    apply reviewLine_vars in Hx. destruct Hx as (Hb' & Hs' & Hm').
    split; [congruence|]. split.
    + rewrite length_app. simpl. lia.
    + rewrite filter_app, app_assoc, <- Hm, Hm'. simpl.
      destruct (missing_not_old x); reflexivity.
  - simpl. rewrite app_nil_r. repeat split; lia.
Qed.

Lemma authorLine_vars (p : patch) (v : vars) (w : world) v' w' :
  authorLine p v w = (Ret v', w') ->
  seven v' = S (seven v) /\ bugsMissingReview v' = bugsMissingReview v.
Proof.
  destruct p as [[revision bugnumber] line].
  unfold authorLine, revisionAuthor, bind, run_git, lift, raise, ret.
  destruct (committer_email git revision) as [e|author]; [discriminate|].
  destruct (re_match webIDLPeersEmailPattern (strip author)).
  { intros H; injection H as <- <-. unfold seven; simpl. split; [lia | reflexivity]. }
  destruct (str_eqb bugnumber (lit "1966190")).
  { intros H; injection H as <- <-. unfold seven; simpl. split; [lia | reflexivity]. }
  destruct (str_eqb bugnumber (lit "1979610")).
  { intros H; injection H as <- <-. unfold seven; simpl. split; [lia | reflexivity]. }
  unfold stderr_write. intros H; injection H as <- <-.
  unfold seven; simpl. split; [lia | reflexivity].
Qed.

Lemma authored_vars (v0 : vars) (w : world) v w' :
  authored v0 w = (Ret v, w') ->
  seven v = seven v0 + List.length (bugsMissingReview v0).
Proof.
  intros H. unfold authored in H.
  refine (proj1 (for_each_invariant authorLine
                   (fun done v _ =>
                      seven v = seven v0 + List.length done
                      /\ bugsMissingReview v = bugsMissingReview v0)
                   _ (bugsMissingReview (set_bugs [] v0)) []
                   (set_bugs [] v0) w v w' _ H)).
  - intros done x s w0 s1 w1 (Hs & Hm) Hx.
    apply authorLine_vars in Hx. destruct Hx as (Hs' & Hm').
    rewrite length_app. simpl. split; [lia | congruence].
  - simpl. split; [unfold seven; simpl; lia | reflexivity].
Qed.

(** C7. On a run whose three loops end without an error exit, every bug-fix
    line has been counted once in one of [numHasPeer],
    [numOldUnparsableReviewers], [numOldMissing], [numOldReviewerless],
    [numPeerAuthored], [numKnownMissing], [numUnknownMissing]: their sum is
    the number of lines classified as bug fixes. *)
Theorem seven_counters_sum (text : str) (w : world) (v : vars) (w' : world) :
  tallied text w = (Ret v, w') ->
  numHasPeer v + numOldUnparsableReviewers v + numOldMissing v
  + numOldReviewerless v + numPeerAuthored v + numKnownMissing v
  + numUnknownMissing v
  = List.length (filter is_bug_line (readlines text)).
Proof.
  intros H. unfold tallied in H.
  apply bind_Ret_inv in H. destruct H as (v1 & w1 & H1 & H).
  apply bind_Ret_inv in H. destruct H as (v2 & w2 & H2 & H3).
  apply classified_vars in H1. destruct H1 as (Hb1 & Hs1 & Hm1).
  apply reviewed_vars in H2. destruct H2 as (_ & Hs2 & _).
  apply authored_vars in H3.
  rewrite <- length_bug_patches, <- Hb1.
  rewrite Hs1, Hm1 in Hs2. simpl in Hs2.
  fold (seven v). lia.
Qed.

(** ** The order of the two look-ups *)

Lemma only_dates_refl (w : world) : only_dates w w.
Proof. exists []. reflexivity. Qed.

Lemma only_dates_trans (w1 w2 w3 : world) :
  only_dates w1 w2 -> only_dates w2 w3 -> only_dates w1 w3.
Proof.
  intros [d1 H1] [d2 H2]. exists (d2 ++ d1).
  rewrite H2, H1, map_app, app_assoc. reflexivity.
Qed.

Lemma only_dates_one (w w' : world) (revision : str) :
  calls w' = ShowDate revision :: calls w -> only_dates w w'.
Proof. intros H. exists [revision]. exact H. Qed.

Lemma revisionDate_then {A} (revision : str) (f : datetime -> M A) w :
  (forall d w1, calls (snd (f d w1)) = calls w1) ->
  only_dates w (snd (bind (revisionDate revision) f w)).
Proof.
  intros Hf. apply only_dates_one with revision.
  unfold revisionDate, bind, run_git, lift, raise, ret.
  destruct (commit_date git revision) as [e|d]; [reflexivity|].
  pose proof (Hf d {| out := out w; err := err w;
                      calls := ShowDate revision :: calls w |}) as H.
  destruct (f d _) as [[a|c|e] w1]; exact H.
Qed.

Lemma classifyLine_calls (raw : str) (v : vars) (w : world) :
  only_dates w (snd (classifyLine raw v w)).
Proof.
  unfold classifyLine.
  destruct (re_match bugPattern (strip raw)); [apply only_dates_refl|].
  destruct (re_match backoutMergePattern (strip raw));
    [apply only_dates_refl|].
  destruct (re_match unrecognizedPattern (strip raw));
    [|apply only_dates_refl].
  apply revisionDate_then. intros d w1. destruct (dateIsOld d); reflexivity.
Qed.

Lemma reviewLine_calls (p : patch) (v : vars) (w : world) :
  only_dates w (snd (reviewLine p v w)).
Proof.
  destruct p as [[revision bugnumber] line]. unfold reviewLine.
  destruct (re_search rEqualPattern line) as [m|].
  - destruct (parseReviewers (group "reviewer" m)).
    + apply only_dates_refl.
    + apply revisionDate_then. intros d w1.
      destruct (dateIsOld d); reflexivity.
    + apply revisionDate_then. intros d w1.
      destruct (dateIsOld d); reflexivity.
  - apply revisionDate_then. intros d w1.
    destruct (dateIsOld d); [reflexivity|].
    destruct (str_eqb bugnumber (lit "1968400")); reflexivity.
Qed.

Lemma authorLine_calls (p : patch) (v : vars) (w : world) :
  calls (snd (authorLine p v w)) = ShowAuthor (revision_of p) :: calls w.
Proof.
  destruct p as [[revision bugnumber] line].
  unfold authorLine, revisionAuthor, bind, run_git, lift, raise, ret,
    revision_of.
  destruct (committer_email git revision) as [e|author]; [reflexivity|].
  destruct (re_match webIDLPeersEmailPattern (strip author)); [reflexivity|].
  destruct (str_eqb bugnumber (lit "1966190")); [reflexivity|].
  destruct (str_eqb bugnumber (lit "1979610")); reflexivity.
Qed.

(** The third loop asks for the authors of a prefix of its list, in order,
    and of the whole list when it ends normally. *)
Lemma author_loop_calls (ps : list patch) (v : vars) (w : world) :
  exists looked rest,
    ps = looked ++ rest
    /\ calls (snd (for_each authorLine ps v w))
       = map (fun p => ShowAuthor (revision_of p)) (rev looked) ++ calls w
    /\ (forall v', fst (for_each authorLine ps v w) = Ret v' -> rest = []).
Proof.
  revert v w. induction ps as [|p ps IH]; intros v w.
  - exists [], []. simpl. auto.
  - rewrite for_each_cons. pose proof (authorLine_calls p v w) as Hp.
    destruct (authorLine p v w) as [[v1|c|e] w1]; simpl in Hp.
    + destruct (IH v1 w1) as (looked & rest & -> & Hc & Hr).
      exists (p :: looked), rest. split; [reflexivity|]. split; [|exact Hr].
      rewrite Hc, Hp. simpl. rewrite map_app, <- app_assoc. reflexivity.
    + exists [p], ps. simpl. split; [reflexivity|]. split; [exact Hp|].
      discriminate.
    + exists [p], ps. simpl. split; [reflexivity|]. split; [exact Hp|].
      discriminate.
Qed.

Lemma report_calls (v : vars) (w : world) :
  calls (snd (report v w)) = calls w.
Proof.
  destruct (numUnknownMissing v) as [|n] eqn:Hn.
  - rewrite report_clean by exact Hn. reflexivity.
  - rewrite report_unknown by lia. reflexivity.
Qed.

Lemma missing_not_old_verdict (p : patch) (m : captures) :
  missing_not_old p = true ->
  re_search rEqualPattern (line_of p) = Some m ->
  parseReviewers (group "reviewer" m) = MISSING.
Proof.
  destruct p as [[revision bugnumber] line].
  unfold missing_not_old, line_of. simpl. intros H Hm. rewrite Hm in H.
  destruct (parseReviewers (group "reviewer" m)); congruence.
Qed.

Lemma tallied_cases (text : str) (w : world) :
  tallied text w
  = match classified text w with
    | (Ret v1, w1) =>
        match reviewed v1 w1 with
        | (Ret v2, w2) => authored v2 w2
        | (SysExit c, w2) => (SysExit c, w2)
        | (Uncaught e, w2) => (Uncaught e, w2)
        end
    | (SysExit c, w1) => (SysExit c, w1)
    | (Uncaught e, w1) => (Uncaught e, w1)
    end.
Proof. reflexivity. Qed.

Lemma main_cases (text : str) (w : world) :
  main text w
  = match tallied text w with
    | (Ret v, w') => report v w'
    | (SysExit c, w') => (SysExit c, w')
    | (Uncaught e, w') => (Uncaught e, w')
    end.
Proof. reflexivity. Qed.

(** A run that stops before the third loop: only dates were asked. *)
Ltac no_lookup H :=
  let d := fresh "d" in
  destruct H as [d H]; exists [], d;
  split; [exact H |
  split; [constructor |
  split; [intros ? ? [] | intros ? ? Hf; discriminate Hf]]].

(** C6. The look-up is in two stages, in this order: in the log of git
    calls (latest first) every look-up of an author comes after every look-up
    of a date; the authors looked up are those of bug-fix patches whose
    reviewer annotation was parsed as naming no peer and whose commit is not
    old, so never of a patch whose annotation validates; and when the three
    loops end normally they are all of these patches. *)
Theorem author_lookup_second (text : str) (w : world) :
  exists (looked : list patch) (dates : list str),
    calls (snd (main text w))
    = map (fun p => ShowAuthor (revision_of p)) (rev looked)
      ++ map ShowDate dates ++ calls w
    /\ Forall (fun p => In p (bug_patches (readlines text))
                        /\ missing_not_old p = true) looked
    /\ (forall p m, In p looked ->
                    re_search rEqualPattern (line_of p) = Some m ->
                    parseReviewers (group "reviewer" m) <> OK)
    /\ (forall v w', tallied text w = (Ret v, w') ->
                     looked
                     = filter missing_not_old (bug_patches (readlines text))).
Proof.
  pose proof (for_each_world classifyLine only_dates only_dates_refl
                only_dates_trans classifyLine_calls (readlines text)
                initial_vars w) as H1.
  fold (classified text) in H1.
  rewrite main_cases, tallied_cases.
  destruct (classified text w) as [[v1|c|e] w1] eqn:E1; simpl in H1;
    try no_lookup H1.
  pose proof (for_each_world reviewLine only_dates only_dates_refl
                only_dates_trans reviewLine_calls (bugs v1) v1 w1) as H2.
  fold (reviewed v1) in H2. pose proof (only_dates_trans _ _ _ H1 H2) as H12.
  destruct (reviewed v1 w1) as [[v2|c|e] w2] eqn:E2; simpl in H2, H12;
    try no_lookup H12.
  destruct H12 as [dates H12].
  apply classified_vars in E1. destruct E1 as (Hb1 & _ & Hm1).
  apply reviewed_vars in E2. destruct E2 as (_ & _ & Hm2).
  rewrite Hm1, Hb1 in Hm2. simpl in Hm2.
  unfold authored.
  destruct (author_loop_calls (bugsMissingReview (set_bugs [] v2))
              (set_bugs [] v2) w2) as (looked & rest & Hps & Hc & Hr).
  simpl bugsMissingReview in *. rewrite Hm2 in Hps.
  exists looked, dates. split; [|split; [|split]].
  - rewrite <- H12, <- Hc.
    destruct (for_each authorLine (bugsMissingReview v2) (set_bugs [] v2) w2)
      as [[v3|c|e] w3]; try reflexivity.
    simpl. apply report_calls.
  - apply Forall_forall. intros p Hin.
    assert (Hf : In p (filter missing_not_old (bug_patches (readlines text))))
      by (rewrite Hps; apply in_or_app; auto).
    apply filter_In in Hf. exact Hf.
  - intros p m Hin Hm.
    assert (Hf : In p (filter missing_not_old (bug_patches (readlines text))))
      by (rewrite Hps; apply in_or_app; auto).
    apply filter_In in Hf. destruct Hf as [_ Hf].
    rewrite (missing_not_old_verdict _ _ Hf Hm). discriminate.
  - intros v w' H.
    destruct (for_each authorLine (bugsMissingReview v2) (set_bugs [] v2) w2)
      as [[v3|c|e] w3]; try discriminate.
    rewrite (Hr v3 eq_refl), app_nil_r in Hps. congruence.
Qed.

(** ** What reaches the error stream on a run that gets to its end *)

(** Every path through a loop body that [H] says returned. *)
Ltac step_cases H :=
  unfold revisionDate, revisionAuthor, bind, run_git, lift, raise, ret,
    stderr_write, exit in H;
  repeat match type of H with
         | context [match ?x with _ => _ end] => destruct x
         | context [if ?x then _ else _] => destruct x
         end;
  try discriminate.

Lemma classifyLine_err (raw : str) (v : vars) (w : world) v' w' :
  classifyLine raw v w = (Ret v', w') -> err w' = err w.
Proof.
  unfold classifyLine.
  destruct (re_match bugPattern (strip raw));
    [intros H; injection H as _ <-; reflexivity|].
  destruct (re_match backoutMergePattern (strip raw));
    [intros H; injection H as _ <-; reflexivity|].
  destruct (re_match unrecognizedPattern (strip raw)) as [m|];
    [|discriminate].
  unfold revisionDate, bind, run_git, lift, raise, ret.
  destruct (commit_date git (group "revision" m)) as [e|d]; [discriminate|].
  destruct (dateIsOld d); [|discriminate].
  intros H; injection H as _ <-. reflexivity.
Qed.

Lemma reviewLine_err (p : patch) (v : vars) (w : world) v' w' :
  reviewLine p v w = (Ret v', w') -> err w' = err w.
Proof.
  destruct p as [[revision bugnumber] line]. unfold reviewLine.
  destruct (re_search rEqualPattern line) as [m|].
  - destruct (parseReviewers (group "reviewer" m));
      [intros H; injection H as _ <-; reflexivity| |];
      unfold revisionDate, bind, run_git, lift, raise, ret;
      (destruct (commit_date git revision) as [e|d]; [discriminate|]);
      destruct (dateIsOld d); try discriminate;
      intros H; injection H as _ <-; reflexivity.
  - unfold revisionDate, bind, run_git, lift, raise, ret.
    destruct (commit_date git revision) as [e|d]; [discriminate|].
    destruct (dateIsOld d); [intros H; injection H as _ <-; reflexivity|].
    destruct (str_eqb bugnumber (lit "1968400")); [|discriminate].
    intros H; injection H as _ <-. reflexivity.
Qed.

Lemma authorLine_err (p : patch) (v : vars) (w : world) v' w' :
  authorLine p v w = (Ret v', w') ->
  err w' = err w ++ (if unknown_violation p then violation_message p else [])
  /\ numUnknownMissing v'
     = numUnknownMissing v + (if unknown_violation p then 1 else 0).
Proof.
  destruct p as [[revision bugnumber] line].
  unfold authorLine, revisionAuthor, unknown_violation, violation_message,
    matches, revision_of, bugnumber_of, line_of.
  unfold bind, run_git, lift, raise, ret. simpl.
  destruct (committer_email git revision) as [e|author]; [discriminate|].
  destruct (re_match webIDLPeersEmailPattern (strip author)).
  { intros H; injection H as <- <-. simpl. rewrite app_nil_r. split; [reflexivity | lia]. }
  destruct (str_eqb bugnumber (lit "1966190")).
  { intros H; injection H as <- <-. simpl. rewrite app_nil_r. split; [reflexivity | lia]. }
  destruct (str_eqb bugnumber (lit "1979610")).
  { intros H; injection H as <- <-. simpl. rewrite app_nil_r. split; [reflexivity | lia]. }
  unfold stderr_write. intros H; injection H as <- <-. simpl.
  split; [reflexivity | lia].
Qed.

(** On a run whose three loops end normally, the error stream holds the
    messages of the unknown violations, in order and one after the other,
    and nothing else; [numUnknownMissing] is their number. *)
Lemma unknown_violations_reported (text : str) (w : world) v w' :
  tallied text w = (Ret v, w') ->
  let unknown :=
    filter unknown_violation
      (filter missing_not_old (bug_patches (readlines text))) in
  err w' = err w ++ concat (map violation_message unknown)
  /\ numUnknownMissing v = List.length unknown.
Proof.
  intros H. rewrite tallied_cases in H.
  destruct (classified text w) as [[v1|c|e] w1] eqn:E1; try discriminate.
  destruct (reviewed v1 w1) as [[v2|c|e] w2] eqn:E2; try discriminate.
  assert (He1 : err w1 = err w /\ numUnknownMissing v1 = 0).
  { unfold classified in E1.
    refine (for_each_invariant classifyLine
              (fun _ v0 w0 => err w0 = err w /\ numUnknownMissing v0 = 0)
              _ (readlines text) [] initial_vars w v1 w1 _ E1); [|auto].
    intros done x s w0 s1 w3 [He Hn] Hx. split.
    - apply classifyLine_err in Hx. congruence.
    - unfold classifyLine in Hx. step_cases Hx.
      all: injection Hx as <- _; exact Hn. }
  assert (He2 : err w2 = err w1 /\ numUnknownMissing v2 = 0).
  { unfold reviewed in E2.
    refine (for_each_invariant reviewLine
              (fun _ v0 w0 => err w0 = err w1 /\ numUnknownMissing v0 = 0)
              _ (bugs v1) [] v1 w1 v2 w2 _ E2); [|tauto].
    intros done x s w0 s1 w3 [He Hn] Hx. split.
    - apply reviewLine_err in Hx. congruence.
    - destruct x as [[revision bugnumber] line]. unfold reviewLine in Hx.
      step_cases Hx.
      all: injection Hx as <- _; exact Hn. }
  apply classified_vars in E1. destruct E1 as (Hb1 & _ & Hm1).
  apply reviewed_vars in E2. destruct E2 as (_ & _ & Hm2).
  rewrite Hm1, Hb1 in Hm2. simpl in Hm2. unfold authored in H.
  simpl bugsMissingReview in H. rewrite Hm2 in H.
  destruct He1 as [He1 _]. destruct He2 as [He2 Hn2].
  rewrite <- He1, <- He2.
  assert (Hn2' : numUnknownMissing (set_bugs [] v2) = 0) by exact Hn2.
  refine (for_each_invariant authorLine
            (fun done v0 w0 =>
               err w0 = err w2
                        ++ concat (map violation_message
                                     (filter unknown_violation done))
               /\ numUnknownMissing v0
                  = List.length (filter unknown_violation done))
            _ _ [] (set_bugs [] v2) w2 v w' _ H).
  - intros done x s w0 s1 w3 [He Hn] Hx.
    apply authorLine_err in Hx. destruct Hx as [Hx1 Hx2].
    rewrite filter_app, map_app, concat_app, length_app. simpl.
    rewrite Hx1, Hx2, He, Hn, <- app_assoc.
    destruct (unknown_violation x); simpl; rewrite ?app_nil_r; auto.
  - simpl. rewrite app_nil_r. auto.
Qed.

(** ** The verdicts of [parseReviewers] other than OK *)

Lemma parseEntries_MISSING (entries : list str) :
  parseEntries entries = MISSING <-> Forall names_no_peer entries.
Proof.
  induction entries as [|e entries IH]; simpl.
  - split; [constructor | reflexivity].
  - destruct (reviewerName e) as [r|] eqn:He.
    + destruct (isPeer r) eqn:Hr.
      * split; [discriminate|]. intros H. inversion H as [|? ? [r' [Hr' Hn]]].
        subst. rewrite He in Hr'. injection Hr' as <-.
        apply (reviewerName_peer _ _ He) in Hr. contradiction.
      * rewrite IH. split.
        -- intros H. constructor; [|exact H]. exists r. split; [exact He|].
           intros Hin. apply (reviewerName_peer _ _ He) in Hin. congruence.
        -- intros H. inversion H. assumption.
    + split; [discriminate|]. intros H. inversion H as [|? ? [r' [Hr' _]]].
      congruence.
Qed.

Lemma parseEntries_BAD_PARSE (entries : list str) :
  parseEntries entries = BAD_PARSE
  <-> exists before entry after,
        entries = before ++ entry :: after
        /\ Forall names_no_peer before /\ reviewerName entry = None.
Proof.
  induction entries as [|e entries IH]; simpl.
  - split; [discriminate|].
    intros (before & entry & after & H & _). destruct before; discriminate.
  - destruct (reviewerName e) as [r|] eqn:He.
    + destruct (isPeer r) eqn:Hr.
      * split; [discriminate|].
        intros (before & entry & after & Heq & Hb & Hn).
        destruct before as [|b before]; simpl in Heq; injection Heq as <- ->.
        -- congruence.
        -- inversion Hb as [|? ? [r' [Hr' Hnp]]]. subst.
           rewrite He in Hr'. injection Hr' as <-.
           apply (reviewerName_peer _ _ He) in Hr. contradiction.
      * rewrite IH. split.
        -- intros (before & entry & after & -> & Hb & Hn).
           exists (e :: before), entry, after. repeat split; auto.
           constructor; [|exact Hb]. exists r. split; [exact He|].
           intros Hin. apply (reviewerName_peer _ _ He) in Hin. congruence.
        -- intros (before & entry & after & Heq & Hb & Hn).
           destruct before as [|b before]; simpl in Heq;
             injection Heq as <- ->; [congruence|].
           inversion Hb. subst. exists before, entry, after. auto.
    + split; [intros _ | reflexivity].
      exists [], e, entries. repeat split; auto.
Qed.

(** X1. [parseReviewers] answers MISSING exactly when every entry of the
    annotation parses as a reviewer name and none is on the peer list, and
    BAD_PARSE exactly when an entry does not parse and every entry before it
    parses and names nobody on the list. *)
Theorem parseReviewers_other_verdicts (rString : str) :
  (parseReviewers rString = MISSING
   <-> Forall names_no_peer (split 44%N rString))
  /\ (parseReviewers rString = BAD_PARSE
      <-> exists before entry after,
            split 44%N rString = before ++ entry :: after
            /\ Forall names_no_peer before /\ reviewerName entry = None).
Proof.
  unfold parseReviewers. split.
  - apply parseEntries_MISSING.
  - apply parseEntries_BAD_PARSE.
Qed.

(** ** The counters as counts *)

Lemma first_loop_invariant (text : str) (w : world) v w' :
  classified text w = (Ret v, w') ->
  List.length (bugs v) = count_class BugFix (readlines text)
  /\ numReverts v = count_class BackoutMerge (readlines text)
  /\ numOldUnrecognized v = count_class OldUnrecognized (readlines text)
  /\ count_class Error (readlines text) = 0.
Proof.
  intros H. unfold classified in H.
  refine (for_each_invariant classifyLine
            (fun done v _ =>
               List.length (bugs v) = count_class BugFix done
               /\ numReverts v = count_class BackoutMerge done
               /\ numOldUnrecognized v = count_class OldUnrecognized done
               /\ count_class Error done = 0)
            _ (readlines text) [] initial_vars w v w' _ H);
    [|repeat split; reflexivity].
  intros done x s w0 s1 w1 (Hb & Hr & Hu & He) Hx.
  pose proof (classifyLine_outcome x s w0) as Ho. rewrite Hx in Ho.
  simpl fst in Ho. unfold count_class in *.
  rewrite !filter_app, !length_app. simpl filter.
  destruct (line_class_of (strip x)); simpl in Ho |- *.
  - destruct Ho as (revision & bugno & Ho). injection Ho as ->.
    simpl. rewrite length_app. simpl. repeat split; lia.
  - injection Ho as ->. simpl. repeat split; lia.
  - injection Ho as ->. simpl. repeat split; lia.
  - destruct Ho as [Ho _]. exfalso. exact (Ho s1 eq_refl).
Qed.

Lemma count_class_total (lines : list str) :
  count_class BugFix lines + count_class BackoutMerge lines
  + count_class OldUnrecognized lines + count_class Error lines
  = List.length lines.
Proof.
  unfold count_class. induction lines as [|raw lines IH]; [reflexivity|].
  simpl. destruct (line_class_of (strip raw)); simpl; lia.
Qed.

(** X2. When the first loop ends normally, every line of the file has been
    counted once: [bugs], [numReverts] and [numOldUnrecognized] hold the
    numbers of lines of the classes bug fix, backout or merge, and
    unrecognized but old, no line is of the class error, and the three add up
    to the number of lines. *)
Theorem first_loop_counts_every_line (text : str) (w : world) (v : vars)
    (w' : world) :
  classified text w = (Ret v, w') ->
  List.length (bugs v) = count_class BugFix (readlines text)
  /\ numReverts v = count_class BackoutMerge (readlines text)
  /\ numOldUnrecognized v = count_class OldUnrecognized (readlines text)
  /\ count_class Error (readlines text) = 0
  /\ List.length (bugs v) + numReverts v + numOldUnrecognized v
     = List.length (readlines text).
Proof.
  intros H. apply first_loop_invariant in H.
  destruct H as (Hb & Hr & Hu & He).
  pose proof (count_class_total (readlines text)) as Ht.
  repeat split; try assumption. lia.
Qed.

Lemma for_each_invariant_in {A S} (body : A -> S -> M S) (P : A -> Prop)
    (I : list A -> S -> world -> Prop) :
  (forall done x s w s1 w1,
      P x -> I done s w -> body x s w = (Ret s1, w1) ->
      I (done ++ [x]) s1 w1) ->
  forall xs done s w s' w',
    Forall P xs -> I done s w -> for_each body xs s w = (Ret s', w') ->
    I (done ++ xs) s' w'.
Proof.
  intros Hstep. induction xs as [|x xs IH]; intros done s w s' w' HP HI Hrun.
  - injection Hrun as <- <-. rewrite app_nil_r. exact HI.
  - rewrite for_each_cons in Hrun. inversion HP as [|? ? Hx Hxs]. subst.
    destruct (body x s w) as [[s1|c|e] w1] eqn:Hb; try discriminate.
    replace (done ++ x :: xs) with ((done ++ [x]) ++ xs)
      by (rewrite <- app_assoc; reflexivity).
    eapply IH; eauto.
Qed.

Lemma get_bump (c c' : counter) (v : vars) :
  get c (bump c' v) = get c v + (if counter_eqb c' c then 1 else 0).
Proof. destruct c, c'; simpl; lia. Qed.

Lemma fate_not_first_loop (p : patch) (c : counter) :
  fate p = Some c -> c <> NumReverts /\ c <> NumOldUnrecognized.
Proof.
  destruct p as [[revision bugnumber] line]. unfold fate.
  repeat match goal with
         | |- context [match ?x with _ => _ end] => destruct x
         | |- context [if ?x then _ else _] => destruct x
         end;
    intros H; try discriminate; injection H as <-; split; discriminate.
Qed.

Lemma reviewLine_fate (p : patch) (v : vars) (w : world) v' w' :
  reviewLine p v w = (Ret v', w') ->
  (missing_not_old p = false /\ exists c, fate p = Some c /\ v' = bump c v)
  \/ (missing_not_old p = true
      /\ v' = set_bugsMissingReview (bugsMissingReview v ++ [p]) v).
Proof.
  destruct p as [[revision bugnumber] line].
  unfold reviewLine, missing_not_old, fate.
  destruct (re_search rEqualPattern line) as [m|].
  - destruct (parseReviewers (group "reviewer" m)).
    + intros H; injection H as <- _. left. eauto.
    + unfold revisionDate, bind, run_git, lift, raise, ret.
      destruct (commit_date git revision) as [e|d]; [discriminate|].
      destruct (dateIsOld d); [|discriminate].
      intros H; injection H as <- _. left. eauto.
    + unfold revisionDate, bind, run_git, lift, raise, ret.
      destruct (commit_date git revision) as [e|d]; [discriminate|].
      destruct (dateIsOld d); intros H; injection H as <- _.
      * left. eauto.
      * right. auto.
  - unfold revisionDate, bind, run_git, lift, raise, ret.
    destruct (commit_date git revision) as [e|d]; [discriminate|].
    destruct (dateIsOld d).
    + intros H; injection H as <- _. left. eauto.
    + destruct (str_eqb bugnumber (lit "1968400")); [|discriminate].
      intros H; injection H as <- _. left. eauto.
Qed.

Lemma authorLine_fate (p : patch) (v : vars) (w : world) v' w' :
  missing_not_old p = true ->
  authorLine p v w = (Ret v', w') ->
  exists c, fate p = Some c /\ v' = bump c v.
Proof.
  destruct p as [[revision bugnumber] line].
  unfold authorLine, missing_not_old, fate, matches.
  destruct (re_search rEqualPattern line) as [m|]; [|discriminate].
  destruct (parseReviewers (group "reviewer" m)); try discriminate.
  destruct (commit_date git revision) as [e|d]; [discriminate|].
  destruct (dateIsOld d); [discriminate|]. intros _.
  unfold revisionAuthor, bind, run_git, lift, raise, ret, stderr_write.
  destruct (committer_email git revision) as [e|author]; [discriminate|].
  destruct (re_match webIDLPeersEmailPattern (strip author)).
  { intros H; injection H as <- _. simpl. eauto. }
  destruct (str_eqb bugnumber (lit "1966190")).
  { intros H; injection H as <- _. simpl. eauto. }
  destruct (str_eqb bugnumber (lit "1979610"));
    intros H; injection H as <- _; simpl; eauto.
Qed.

Lemma filter_split {A} (f g : A -> bool) (l : list A) :
  List.length (filter (fun x => negb (g x) && f x) l)
  + List.length (filter f (filter g l))
  = List.length (filter f l).
Proof.
  induction l as [|x l IH]; [reflexivity|]. simpl.
  destruct (g x); simpl; destruct (f x); simpl; lia.
Qed.

(** X3. When the three loops end normally, each of the nine counters holds
    the number the file calls for: [numReverts] and [numOldUnrecognized] the
    numbers of backout and of old unrecognized lines, and each of the seven
    others the number of bug-fix patches that [fate] sends to it; queueing a
    patch in [bugsMissingReview] for the third loop changes nothing to
    that. *)
Theorem counters_are_counts (text : str) (w : world) (v : vars) (w' : world) :
  tallied text w = (Ret v, w') ->
  forall c : counter, get c v = final_count c (readlines text).
Proof.
  intros H c. rewrite tallied_cases in H.
  destruct (classified text w) as [[v1|c1|e1] w1] eqn:E1; try discriminate.
  destruct (reviewed v1 w1) as [[v2|c2|e2] w2] eqn:E2; try discriminate.
  pose proof (first_loop_invariant _ _ _ _ E1) as (_ & Hr1 & Hu1 & _).
  pose proof (classified_vars _ _ _ _ E1) as (Hb1 & Hs1 & Hm1).
  assert (H2 : (forall c, get c v2
                          = get c v1
                            + List.length
                                (filter (fun p => negb (missing_not_old p)
                                                  && lands_in c p) (bugs v1)))
               /\ bugsMissingReview v2
                  = filter missing_not_old (bugs v1)).
  { unfold reviewed in E2.
    refine (for_each_invariant reviewLine
              (fun done v _ =>
                 (forall c, get c v
                            = get c v1
                              + List.length
                                  (filter (fun p => negb (missing_not_old p)
                                                    && lands_in c p) done))
                 /\ bugsMissingReview v = filter missing_not_old done)
              _ (bugs v1) [] v1 w1 v2 w2 _ E2).
    - intros done x s w0 s1 w3 [Hg Hq] Hx.
      apply reviewLine_fate in Hx.
      destruct Hx as [(Hn & c0 & Hf & ->) | (Hn & ->)].
      + split.
        * intros c'. rewrite get_bump, Hg, filter_app, length_app. simpl.
          replace (lands_in c' x) with (counter_eqb c0 c')
            by (unfold lands_in; rewrite Hf; reflexivity).
          rewrite Hn. simpl. destruct (counter_eqb c0 c'); simpl; lia.
        * rewrite filter_app. simpl. rewrite Hn, app_nil_r. exact Hq.
      + split.
        * intros c'. rewrite filter_app, length_app. simpl. rewrite Hn.
          simpl. rewrite Nat.add_0_r. rewrite <- Hg. destruct c'; reflexivity.
        * rewrite filter_app. simpl. rewrite Hn, Hq. reflexivity.
    - split; [intros c'; simpl; lia | exact Hm1]. }
  destruct H2 as [Hg2 Hq2]. unfold authored in H.
  simpl bugsMissingReview in H. rewrite Hq2 in H.
  assert (H3 : forall c, get c v
                         = get c v2
                           + List.length
                               (filter (lands_in c)
                                  (filter missing_not_old (bugs v1)))).
  { refine (for_each_invariant_in authorLine
              (fun p => missing_not_old p = true)
              (fun done v _ =>
                 forall c, get c v
                           = get c v2 + List.length (filter (lands_in c) done))
              _ (filter missing_not_old (bugs v1)) [] (set_bugs [] v2) w2 v w'
              _ _ H).
    - intros done x s w0 s1 w3 Hn Hg Hx c'.
      destruct (authorLine_fate _ _ _ _ _ Hn Hx) as (c0 & Hf & ->).
      rewrite get_bump, Hg, filter_app, length_app. simpl.
      replace (lands_in c' x) with (counter_eqb c0 c')
        by (unfold lands_in; rewrite Hf; reflexivity).
      destruct (counter_eqb c0 c'); simpl; lia.
    - apply Forall_forall. intros p Hp. apply filter_In in Hp. tauto.
    - intros c'. simpl. rewrite Nat.add_0_r. destruct c'; reflexivity. }
  rewrite H3, Hg2, <- Nat.add_assoc, filter_split, Hb1.
  assert (Hzero : forall p, c = NumReverts \/ c = NumOldUnrecognized ->
                            lands_in c p = false).
  { intros p Hc. unfold lands_in. destruct (fate p) as [c0|] eqn:Hf; auto.
    apply fate_not_first_loop in Hf. destruct Hf as [Hf1 Hf2].
    destruct Hc as [-> | ->]; destruct c0; try reflexivity; congruence. }
  assert (Hnone : c = NumReverts \/ c = NumOldUnrecognized ->
                  forall l, filter (lands_in c) l = []).
  { intros Hc. induction l as [|p l IH]; [reflexivity|].
    simpl. rewrite (Hzero p Hc). exact IH. }
  unfold seven in Hs1.
  destruct c; simpl final_count; simpl get;
    try (rewrite Hnone by auto; simpl; lia); lia.
Qed.

(** ** How a run can end *)

(** A loop that does not return stopped in one of its iterations. *)
Lemma for_each_stops {A S} (body : A -> S -> M S) (R : world -> world -> Prop) :
  (forall w, R w w) ->
  (forall w1 w2 w3, R w1 w2 -> R w2 w3 -> R w1 w3) ->
  (forall x s w, R w (snd (body x s w))) ->
  forall xs s w r w',
    for_each body xs s w = (r, w') ->
    (forall a, r <> Ret a) ->
    exists x s0 w0, In x xs /\ R w w0 /\ body x s0 w0 = (r, w').
Proof.
  intros Hrefl Htrans Hstep.
  induction xs as [|x xs IH]; intros s w r w' Hrun Hr.
  - injection Hrun as <- <-. exfalso. exact (Hr s eq_refl).
  - rewrite for_each_cons in Hrun. pose proof (Hstep x s w) as Hx.
    destruct (body x s w) as [[s1|c|e] w1] eqn:Hb; simpl in Hx.
    + destruct (IH _ _ _ _ Hrun Hr) as (y & s0 & w0 & Hin & HR & Hy).
      exists y, s0, w0. split; [right; exact Hin|].
      split; [eapply Htrans; eauto | exact Hy].
    + exists x, s, w. rewrite Hb. split; [left; reflexivity|]. auto.
    + exists x, s, w. rewrite Hb. split; [left; reflexivity|]. auto.
Qed.

Lemma quiet_refl (w : world) : quiet w w.
Proof. split; [reflexivity|]. exists []. rewrite app_nil_r. reflexivity. Qed.

Lemma quiet_trans (w1 w2 w3 : world) :
  quiet w1 w2 -> quiet w2 w3 -> quiet w1 w3.
Proof.
  intros [Ho1 [m1 He1]] [Ho2 [m2 He2]]. split; [congruence|].
  exists (m1 ++ m2). rewrite He2, He1, app_assoc. reflexivity.
Qed.

Lemma quiet_complained (w1 w2 w3 : world) :
  quiet w1 w2 -> complained w2 w3 -> complained w1 w3.
Proof.
  intros [Ho1 [m1 He1]] [Ho2 (m2 & Hm2 & He2)]. split; [congruence|].
  exists (m1 ++ m2). split.
  - intros H. apply app_eq_nil in H. tauto.
  - rewrite He2, He1, app_assoc. reflexivity.
Qed.

Lemma lit_app_not_nil (l : string) (rest : str) :
  lit l <> [] -> lit l ++ rest <> [].
Proof. intros Hl H. apply app_eq_nil in H. tauto. Qed.

Lemma quiet_write (w : world) (msg : str) :
  quiet w (snd (stderr_write msg w)).
Proof. split; [reflexivity|]. exists msg. reflexivity. Qed.

Lemma quiet_calls (w : world) (cs : list git_call) :
  quiet w {| out := out w; err := err w; calls := cs |}.
Proof. split; [reflexivity|]. exists []. simpl. rewrite app_nil_r. auto. Qed.

Lemma revisionDate_quiet {A} (revision : str) (f : datetime -> M A) w :
  (forall d w1, quiet w1 (snd (f d w1))) ->
  quiet w (snd (bind (revisionDate revision) f w)).
Proof.
  intros Hf. unfold revisionDate, bind, run_git, lift, raise, ret.
  destruct (commit_date git revision) as [e|d]; [apply quiet_calls|].
  pose proof (Hf d {| out := out w; err := err w;
                      calls := ShowDate revision :: calls w |}) as H.
  destruct (f d _) as [[a|c|e] w1]; simpl in *;
    (eapply quiet_trans; [apply quiet_calls | exact H]).
Qed.

Lemma write_exit_quiet {A} (msg : str) (code : Z) (w : world) :
  quiet w (snd (bind (stderr_write msg) (fun _ => @exit A code) w)).
Proof. apply quiet_write. Qed.

Lemma classifyLine_quiet (raw : str) (v : vars) (w : world) :
  quiet w (snd (classifyLine raw v w)).
Proof.
  unfold classifyLine.
  destruct (re_match bugPattern (strip raw)); [apply quiet_refl|].
  destruct (re_match backoutMergePattern (strip raw)); [apply quiet_refl|].
  destruct (re_match unrecognizedPattern (strip raw)); [|apply quiet_refl].
  apply revisionDate_quiet. intros d w1.
  destruct (dateIsOld d); [apply quiet_refl | apply write_exit_quiet].
Qed.

Lemma reviewLine_quiet (p : patch) (v : vars) (w : world) :
  quiet w (snd (reviewLine p v w)).
Proof.
  destruct p as [[revision bugnumber] line]. unfold reviewLine.
  destruct (re_search rEqualPattern line) as [m|].
  - destruct (parseReviewers (group "reviewer" m)).
    + apply quiet_refl.
    + apply revisionDate_quiet. intros d w1.
      destruct (dateIsOld d); [apply quiet_refl | apply write_exit_quiet].
    + apply revisionDate_quiet. intros d w1.
      destruct (dateIsOld d); apply quiet_refl.
  - apply revisionDate_quiet. intros d w1.
    destruct (dateIsOld d); [apply quiet_refl|].
    destruct (str_eqb bugnumber (lit "1968400"));
      [apply quiet_refl | apply write_exit_quiet].
Qed.

Lemma authorLine_quiet (p : patch) (v : vars) (w : world) :
  quiet w (snd (authorLine p v w)).
Proof.
  destruct p as [[revision bugnumber] line].
  unfold authorLine, revisionAuthor, bind, run_git, lift, raise, ret.
  destruct (committer_email git revision) as [e|author];
    [apply quiet_calls|].
  destruct (re_match webIDLPeersEmailPattern (strip author));
    [apply quiet_calls|].
  destruct (str_eqb bugnumber (lit "1966190")); [apply quiet_calls|].
  destruct (str_eqb bugnumber (lit "1979610")); [apply quiet_calls|].
  split; [reflexivity|]. eexists. reflexivity.
Qed.

Lemma tallied_quiet (text : str) (w : world) :
  quiet w (snd (tallied text w)).
Proof.
  rewrite tallied_cases.
  pose proof (for_each_world classifyLine quiet quiet_refl quiet_trans
                classifyLine_quiet (readlines text) initial_vars w) as H1.
  fold (classified text) in H1.
  destruct (classified text w) as [[v1|c|e] w1]; simpl in H1; try exact H1.
  pose proof (for_each_world reviewLine quiet quiet_refl quiet_trans
                reviewLine_quiet (bugs v1) v1 w1) as H2.
  fold (reviewed v1) in H2.
  destruct (reviewed v1 w1) as [[v2|c|e] w2]; simpl in H2;
    try (eapply quiet_trans; eauto; fail).
  eapply quiet_trans; [exact H1|]. eapply quiet_trans; [exact H2|].
  apply (for_each_world authorLine quiet quiet_refl quiet_trans
           authorLine_quiet).
Qed.

Ltac nonempty :=
  apply lit_app_not_nil;
  let H := fresh in intro H; vm_compute in H; discriminate H.

Lemma write_exit_complained (msg : str) (code : Z) (w : world) c w' :
  msg <> [] ->
  bind (stderr_write msg) (fun _ => @exit vars code) w = (SysExit c, w') ->
  c = code /\ complained w w'.
Proof.
  intros Hmsg H. injection H as <- <-. split; [reflexivity|].
  split; [reflexivity|]. exists msg. auto.
Qed.

Lemma revisionDate_stops {A} (revision : str) (f : datetime -> M A) w r w'
    (Q : world -> Prop) :
  bind (revisionDate revision) f w = (r, w') ->
  (forall a, r <> Ret a) ->
  (forall e, commit_date git revision = inl e -> r = Uncaught e -> Q w') ->
  (forall d w1, quiet w w1 -> f d w1 = (r, w') -> Q w') ->
  Q w'.
Proof.
  intros H Hr Hgit Hf. unfold revisionDate, bind, run_git, lift, raise, ret in H.
  destruct (commit_date git revision) as [e|d] eqn:Hd.
  - injection H as <- <-. eapply Hgit; reflexivity.
  - apply (Hf d {| out := out w; err := err w;
                   calls := ShowDate revision :: calls w |});
      [apply quiet_calls|].
    destruct (f d _) as [[a|c|e] w1]; exact H.
Qed.

Lemma classifyLine_exit (raw : str) (v : vars) (w : world) c w' :
  classifyLine raw v w = (SysExit c, w') -> c = (-1)%Z /\ complained w w'.
Proof.
  unfold classifyLine.
  destruct (re_match bugPattern (strip raw)); [discriminate|].
  destruct (re_match backoutMergePattern (strip raw)); [discriminate|].
  destruct (re_match unrecognizedPattern (strip raw)) as [m|];
    [|discriminate].
  intros H.
  apply (revisionDate_stops _ _ _ _ _
           (fun w' => c = (-1)%Z /\ complained w w') H);
    try discriminate.
  intros d w1 Hq Hd. destruct (dateIsOld d); [discriminate|].
  apply write_exit_complained in Hd; [|nonempty].
  destruct Hd as [-> Hc]. split; [reflexivity|].
  eapply quiet_complained; eauto.
Qed.

Lemma reviewLine_exit (p : patch) (v : vars) (w : world) c w' :
  reviewLine p v w = (SysExit c, w') -> c = (-1)%Z /\ complained w w'.
Proof.
  destruct p as [[revision bugnumber] line]. unfold reviewLine.
  destruct (re_search rEqualPattern line) as [m|].
  - destruct (parseReviewers (group "reviewer" m)); [discriminate| |];
      intros H;
      apply (revisionDate_stops _ _ _ _ _
               (fun w' => c = (-1)%Z /\ complained w w') H);
      try discriminate; intros d w1 Hq Hd;
      destruct (dateIsOld d); try discriminate.
    apply write_exit_complained in Hd; [|nonempty].
    destruct Hd as [-> Hc]. split; [reflexivity|].
    eapply quiet_complained; eauto.
  - intros H.
    apply (revisionDate_stops _ _ _ _ _
             (fun w' => c = (-1)%Z /\ complained w w') H);
      try discriminate.
    intros d w1 Hq Hd. destruct (dateIsOld d); [discriminate|].
    destruct (str_eqb bugnumber (lit "1968400")); [discriminate|].
    apply write_exit_complained in Hd; [|nonempty].
    destruct Hd as [-> Hc]. split; [reflexivity|].
    eapply quiet_complained; eauto.
Qed.

Lemma authorLine_no_exit (p : patch) (v : vars) (w : world) c w' :
  authorLine p v w <> (SysExit c, w').
Proof.
  destruct p as [[revision bugnumber] line].
  unfold authorLine, revisionAuthor, bind, run_git, lift, raise, ret,
    stderr_write.
  destruct (committer_email git revision) as [e|author]; [discriminate|].
  destruct (re_match webIDLPeersEmailPattern (strip author)); [discriminate|].
  destruct (str_eqb bugnumber (lit "1966190")); [discriminate|].
  destruct (str_eqb bugnumber (lit "1979610")); discriminate.
Qed.




Lemma not_Ret_SysExit {A} (c : Z) (a : A) : @SysExit A c <> Ret a.
Proof. discriminate. Qed.



(** X4. A run that ends normally has printed exactly the report of its
    final counters, after three loops that ended normally with no unknown
    violation, and has written nothing to the error stream. *)
Theorem success_prints_the_report (text : str) (w : world) (u : unit)
    (w' : world) :
  main text w = (Ret u, w') ->
  exists v w1,
    tallied text w = (Ret v, w1)
    /\ numUnknownMissing v = 0
    /\ out w' = out w ++ report_text v
    /\ err w' = err w.
Proof.
  intros H. rewrite main_cases in H.
  pose proof (tallied_quiet text w) as [Ho _].
  destruct (tallied text w) as [[v|c|e] w1] eqn:E; try discriminate.
  simpl in Ho. exists v, w1. split; [reflexivity|].
  destruct (numUnknownMissing v) as [|n] eqn:Hn.
  - rewrite report_clean in H by exact Hn. injection H as _ <-. simpl.
    pose proof (unknown_violations_reported _ _ _ _ E) as [He Hu].
    rewrite Hn in Hu. symmetry in Hu. apply length_zero_iff_nil in Hu.
    rewrite Hu in He. simpl in He. rewrite app_nil_r in He.
    rewrite Ho. auto.
  - rewrite report_unknown in H by lia. discriminate.
Qed.

(** X5. The script leaves through [exit] with the code -1 only, and never
    silently: a message was written to the error stream first, and nothing
    was printed. *)
Theorem exits_are_announced (text : str) (w : world) (c : Z) (w' : world) :
  main text w = (SysExit c, w') ->
  c = (-1)%Z /\ complained w w'.
Proof.
  intros H. rewrite main_cases in H.
  pose proof (tallied_quiet text w) as Hq.
  destruct (tallied text w) as [[v|c0|e] w1] eqn:E; try discriminate.
  - simpl in Hq. destruct (numUnknownMissing v) as [|n] eqn:Hn.
    + rewrite report_clean in H by exact Hn. discriminate.
    + rewrite report_unknown in H by lia. injection H as <- <-.
      split; [reflexivity|]. eapply quiet_complained; [exact Hq|].
      split; [reflexivity|]. eexists. split; [|reflexivity].
      intros Hnil. vm_compute in Hnil. discriminate Hnil.
  - injection H as -> ->. clear Hq. rewrite tallied_cases in E.
    pose proof (for_each_world classifyLine quiet quiet_refl quiet_trans
                  classifyLine_quiet (readlines text) initial_vars w) as H1.
    fold (classified text) in H1.
    destruct (classified text w) as [[v1|c1|e1] w1] eqn:E1; simpl in H1;
      try discriminate.
    + pose proof (for_each_world reviewLine quiet quiet_refl quiet_trans
                    reviewLine_quiet (bugs v1) v1 w1) as H2.
      fold (reviewed v1) in H2.
      destruct (reviewed v1 w1) as [[v2|c2|e2] w2] eqn:E2; simpl in H2;
        try discriminate.
      * unfold authored in E.
        destruct (for_each_stops authorLine quiet quiet_refl quiet_trans
                    authorLine_quiet _ _ _ _ _ E (not_Ret_SysExit c))
          as (x & s0 & w0 & _ & _ & Hx).
        exfalso. exact (authorLine_no_exit _ _ _ _ _ Hx).
      * injection E as -> ->. unfold reviewed in E2.
        destruct (for_each_stops reviewLine quiet quiet_refl quiet_trans
                    reviewLine_quiet _ _ _ _ _ E2 (not_Ret_SysExit c))
          as (x & s0 & w0 & _ & Hq & Hx).
        apply reviewLine_exit in Hx. destruct Hx as [-> Hx].
        split; [reflexivity|].
        eapply quiet_complained; [|exact Hx]. eapply quiet_trans; eauto.
    + injection E as -> ->. unfold classified in E1.
      destruct (for_each_stops classifyLine quiet quiet_refl quiet_trans
                  classifyLine_quiet _ _ _ _ _ E1 (not_Ret_SysExit c))
        as (x & s0 & w0 & _ & Hq & Hx).
      apply classifyLine_exit in Hx. destruct Hx as [-> Hx].
      split; [reflexivity|]. eapply quiet_complained; eauto.
Qed.


(** ** The git calls of a complete run *)

(** The reversal of a list of at most one element. *)
Ltac stream_shape :=
  repeat match goal with
         | |- context [match ?x with _ => _ end] => destruct x
         | |- context [if ?x then _ else _] => destruct x
         end;
  reflexivity.

Lemma classifyLine_asks (raw : str) (v : vars) (w : world) v' w' :
  classifyLine raw v w = (Ret v', w') ->
  calls w' = map ShowDate (asked_date_1 raw) ++ calls w.
Proof.
  unfold classifyLine, asked_date_1, matches.
  destruct (re_match bugPattern (strip raw));
    [intros H; injection H as _ <-; reflexivity|].
  destruct (re_match backoutMergePattern (strip raw));
    [intros H; injection H as _ <-; reflexivity|].
  destruct (re_match unrecognizedPattern (strip raw)) as [m|];
    [|discriminate].
  unfold revisionDate, bind, run_git, lift, raise, ret.
  destruct (commit_date git (group "revision" m)) as [e|d]; [discriminate|].
  destruct (dateIsOld d); [|discriminate].
  intros H; injection H as _ <-. reflexivity.
Qed.

Lemma reviewLine_asks (p : patch) (v : vars) (w : world) v' w' :
  reviewLine p v w = (Ret v', w') ->
  calls w' = map ShowDate (asked_date_2 p) ++ calls w.
Proof.
  destruct p as [[revision bugnumber] line].
  unfold reviewLine, asked_date_2, line_of, revision_of. simpl.
  destruct (re_search rEqualPattern line) as [m|].
  - destruct (parseReviewers (group "reviewer" m));
      [intros H; injection H as _ <-; reflexivity| |];
      unfold revisionDate, bind, run_git, lift, raise, ret;
      (destruct (commit_date git revision) as [e|d]; [discriminate|]);
      destruct (dateIsOld d); try discriminate;
      intros H; injection H as _ <-; reflexivity.
  - unfold revisionDate, bind, run_git, lift, raise, ret.
    destruct (commit_date git revision) as [e|d]; [discriminate|].
    destruct (dateIsOld d); [intros H; injection H as _ <-; reflexivity|].
    destruct (str_eqb bugnumber (lit "1968400")); [|discriminate].
    intros H; injection H as _ <-. reflexivity.
Qed.

(** X7. On a run whose three loops end normally, git was asked, in this
    order and once per line or patch: the date of every line of the file
    that is neither a bug fix nor a backout or merge; the date of every
    bug-fix patch whose annotation does not validate against the peer list;
    the committer of every patch of the second stage.  A backout and a patch
    reviewed by a peer cost no git call. *)
Theorem git_calls_of_a_complete_run (text : str) (w : world) (v : vars)
    (w' : world) :
  tallied text w = (Ret v, w') ->
  let patches := bug_patches (readlines text) in
  calls w'
  = map (fun p => ShowAuthor (revision_of p))
      (rev (filter missing_not_old patches))
    ++ map ShowDate (rev (flat_map asked_date_2 patches))
    ++ map ShowDate (rev (flat_map asked_date_1 (readlines text)))
    ++ calls w.
Proof.
  intros H patches. rewrite tallied_cases in H.
  destruct (classified text w) as [[v1|c1|e1] w1] eqn:E1; try discriminate.
  destruct (reviewed v1 w1) as [[v2|c2|e2] w2] eqn:E2; try discriminate.
  assert (H1 : calls w1
               = map ShowDate (rev (flat_map asked_date_1 (readlines text)))
                 ++ calls w).
  { unfold classified in E1.
    refine (for_each_invariant classifyLine
              (fun done _ w0 =>
                 calls w0
                 = map ShowDate (rev (flat_map asked_date_1 done))
                   ++ calls w)
              _ (readlines text) [] initial_vars w v1 w1 _ E1);
      [|reflexivity].
    intros done x s w0 s1 w3 Hc Hx. apply classifyLine_asks in Hx.
    rewrite Hx, Hc, flat_map_app, rev_app_distr, map_app. simpl.
    rewrite app_nil_r, <- app_assoc.
    unfold asked_date_1. stream_shape. }
  assert (H2 : calls w2
               = map ShowDate (rev (flat_map asked_date_2 (bugs v1)))
                 ++ calls w1).
  { unfold reviewed in E2.
    refine (for_each_invariant reviewLine
              (fun done _ w0 =>
                 calls w0
                 = map ShowDate (rev (flat_map asked_date_2 done))
                   ++ calls w1)
              _ (bugs v1) [] v1 w1 v2 w2 _ E2); [|reflexivity].
    intros done x s w0 s1 w3 Hc Hx. apply reviewLine_asks in Hx.
    rewrite Hx, Hc, flat_map_app, rev_app_distr, map_app. simpl.
    rewrite app_nil_r, <- app_assoc.
    unfold asked_date_2. stream_shape. }
  pose proof (classified_vars _ _ _ _ E1) as (Hb1 & _ & Hm1).
  pose proof (reviewed_vars _ _ _ _ E2) as (_ & _ & Hm2).
  rewrite Hm1 in Hm2. simpl in Hm2. unfold authored in H.
  destruct (author_loop_calls (bugsMissingReview (set_bugs [] v2))
              (set_bugs [] v2) w2) as (looked & rest & Hps & Hc & Hr).
  rewrite H in Hc, Hr. simpl in Hc. specialize (Hr v eq_refl). subst rest.
  rewrite app_nil_r in Hps. simpl in Hps. rewrite Hm2 in Hps. subst looked.
  rewrite Hc, H2, H1, Hb1. reflexivity.
Qed.

(** ** What a match consumes and captures *)

Lemma star_inv (p : char -> bool) pos s cs k m :
  star p pos s cs k = Some m ->
  exists n, n <= List.length s
            /\ Forall (fun c => p c = true) (firstn n s)
            /\ k (pos + n) (skipn n s) cs = Some m.
Proof.
  revert pos. induction s as [|c s IH]; intros pos H; simpl in H.
  - exists 0. rewrite Nat.add_0_r. simpl. auto.
  - destruct (p c) eqn:Hc.
    + destruct (star p (S pos) s cs k) as [m'|] eqn:Hs.
      * injection H as ->. destruct (IH _ Hs) as (n & Hn & Hall & Hk).
        exists (S n). simpl. rewrite Nat.add_succ_r.
        repeat split; auto; lia.
      * exists 0. rewrite Nat.add_0_r. simpl. repeat split; auto; lia.
    + exists 0. rewrite Nat.add_0_r. simpl. repeat split; auto; lia.
Qed.

(** A successful match hands its continuation a suffix of the subject and
    the captures it had, with groups of the pattern on top. *)
Lemma rmatch_inv (r : regex) :
  forall pos s cs k m,
    rmatch r pos s cs k = Some m ->
    exists n new,
      n <= List.length s
      /\ k (pos + n) (skipn n s) (new ++ cs) = Some m
      /\ Forall (fun e => In (fst e) (group_names r)) new.
Proof.
  induction r as [| | |p|r1 IH1 r2 IH2|r1 IH1 r2 IH2|r1 IH1|p|p|name r1 IH1];
    intros pos s cs k m H; simpl in H.
  - exists 0, []. rewrite Nat.add_0_r. simpl. repeat split; auto; lia.
  - destruct (Nat.eqb pos 0); [|discriminate].
    exists 0, []. rewrite Nat.add_0_r. simpl. repeat split; auto; lia.
  - exists 0, []. rewrite Nat.add_0_r. simpl.
    destruct s as [|c [|c' s]]; try discriminate.
    + repeat split; auto.
    + destruct (char_eqb c NL); [|discriminate]. repeat split; auto; lia.
  - destruct s as [|c s]; [discriminate|].
    destruct (p c); [|discriminate].
    exists 1, []. rewrite Nat.add_1_r. simpl. repeat split; auto; lia.
  - apply IH1 in H. destruct H as (n1 & new1 & Hn1 & H & Hg1).
    apply IH2 in H. destruct H as (n2 & new2 & Hn2 & H & Hg2).
    rewrite length_skipn in Hn2.
    exists (n1 + n2), (new2 ++ new1).
    rewrite skipn_skipn, <- app_assoc, Nat.add_assoc,
      (Nat.add_comm n2 n1) in *.
    split; [lia|]. split; [exact H|]. simpl.
    apply Forall_app. split.
    + eapply Forall_impl; [|exact Hg2]. intros e He. apply in_or_app. auto.
    + eapply Forall_impl; [|exact Hg1]. intros e He. apply in_or_app. auto.
  - destruct (rmatch r1 pos s cs k) as [m1|] eqn:H1.
    + injection H as <-. apply IH1 in H1.
      destruct H1 as (n & new & Hn & H1 & Hg). exists n, new.
      repeat split; auto. simpl.
      eapply Forall_impl; [|exact Hg]. intros e He. apply in_or_app. auto.
    + apply IH2 in H. destruct H as (n & new & Hn & H & Hg). exists n, new.
      repeat split; auto. simpl.
      eapply Forall_impl; [|exact Hg]. intros e He. apply in_or_app. auto.
  - destruct (rmatch r1 pos s cs k) as [m1|] eqn:H1.
    + injection H as <-. apply IH1 in H1. exact H1.
    + exists 0, []. rewrite Nat.add_0_r. simpl. repeat split; auto; lia.
  - destruct s as [|c s]; [discriminate|].
    destruct (p c); [|discriminate].
    apply star_inv in H. destruct H as (n & Hn & Hall & H).
    exists (S n), []. rewrite Nat.add_succ_r. simpl.
    repeat split; auto; lia.
  - apply star_inv in H. destruct H as (n & Hn & Hall & H).
    exists n, []. simpl. repeat split; auto.
  - apply IH1 in H. destruct H as (n & new & Hn & H & Hg).
    exists n, ((name, firstn (pos + n - pos) s) :: new).
    simpl. repeat split; auto.
    constructor; [left; reflexivity|].
    eapply Forall_impl; [|exact Hg]. intros e He. right. exact He.
Qed.

Lemma named_plus_inv (name : string) (p : char -> bool) (R : regex)
    pos s cs k m :
  rmatch (Named name (Plus p) +++ R) pos s cs k = Some m ->
  exists g s',
    g <> [] /\ Forall (fun c => p c = true) g /\ s = g ++ s'
    /\ rmatch R (pos + List.length g) s' ((name, g) :: cs) k = Some m.
Proof.
  simpl. destruct s as [|c s]; [discriminate|].
  destruct (p c) eqn:Hc; [|discriminate].
  intros H. apply star_inv in H. destruct H as (n & Hn & Hall & H).
  replace (S pos + n - pos) with (S n) in H by lia.
  exists (c :: firstn n s), (skipn n s). simpl.
  rewrite firstn_skipn, length_firstn, Nat.min_l by exact Hn.
  split; [discriminate|]. split; [constructor; assumption|].
  split; [reflexivity|]. rewrite Nat.add_succ_r. exact H.
Qed.

Lemma group_under (name : string) (new : captures) (g : str) (cs : captures) :
  Forall (fun e => fst e <> name) new ->
  group name (new ++ (name, g) :: cs) = g.
Proof.
  induction new as [|[n v] new IH]; intros H; simpl.
  - rewrite String.eqb_refl. reflexivity.
  - inversion H as [|? ? Hn Hnew]. subst. simpl in Hn.
    destruct (String.eqb_spec n name); [contradiction|]. apply IH. exact Hnew.
Qed.

(** The group [revision] of a pattern that starts with
    [^(?P<revision>[a-z0-9]+)]: a non-empty prefix of the line, made of
    [[a-z0-9]]. *)
Lemma revision_group (R : regex) (line : str) (m : captures) :
  ~ In "revision"%string (group_names R) ->
  re_match (Bol +++ Named "revision" (Plus lower_or_digit) +++ R) line
  = Some m ->
  hash_like (group "revision" m) = true
  /\ exists rest, line = group "revision" m ++ rest.
Proof.
  intros Hfree H. unfold re_match in H.
  change (rmatch (Bol +++ ?X) 0 line [] accept)
    with (rmatch X 0 line [] accept) in H.
  apply named_plus_inv in H. destruct H as (g & s' & Hg & Hall & -> & H).
  apply rmatch_inv in H. destruct H as (n & new & _ & H & Hnew).
  unfold accept in H. injection H as <-.
  rewrite group_under.
  - split; [|eauto]. unfold hash_like. destruct g as [|c g]; [congruence|].
    apply forallb_forall. rewrite Forall_forall in Hall. exact Hall.
  - eapply Forall_impl; [|exact Hnew]. intros e He Heq.
    apply Hfree. rewrite <- Heq. exact He.
Qed.

Lemma bugPattern_revision (line : str) (m : captures) :
  re_match bugPattern line = Some m ->
  hash_like (group "revision" m) = true
  /\ exists rest, line = group "revision" m ++ rest.
Proof.
  apply revision_group. simpl. intros [H|[]]. discriminate.
Qed.

Lemma unrecognizedPattern_revision (line : str) (m : captures) :
  re_match unrecognizedPattern line = Some m ->
  hash_like (group "revision" m) = true
  /\ exists rest, line = group "revision" m ++ rest.
Proof.
  apply revision_group. simpl. intros [H|[]]. discriminate.
Qed.

Lemma bug_patches_hash_like (lines : list str) :
  Forall (fun p => hash_like (revision_of p) = true) (bug_patches lines).
Proof.
  unfold bug_patches. induction lines as [|raw lines IH]; [constructor|].
  simpl. apply Forall_app. split; [|exact IH]. unfold bug_patch.
  destruct (re_match bugPattern (strip raw)) as [m|] eqn:Hm; [|constructor].
  constructor; [|constructor]. apply bugPattern_revision in Hm. tauto.
Qed.

(** ** Git is only given revisions of the form [[a-z0-9]+] *)

Lemma asked_hashes_refl (w : world) : asked_hashes w w.
Proof. exists []. split; [reflexivity | constructor]. Qed.

Lemma asked_hashes_trans (w1 w2 w3 : world) :
  asked_hashes w1 w2 -> asked_hashes w2 w3 -> asked_hashes w1 w3.
Proof.
  intros (n1 & H1 & F1) (n2 & H2 & F2). exists (n2 ++ n1). split.
  - rewrite H2, H1, app_assoc. reflexivity.
  - apply Forall_app. auto.
Qed.

Lemma asked_hashes_one (w w' : world) (c : git_call) :
  hash_like (call_revision c) = true ->
  calls w' = c :: calls w -> asked_hashes w w'.
Proof. intros Hc H. exists [c]. split; [exact H | repeat constructor; auto]. Qed.

Lemma revisionDate_hashes {A} (revision : str) (f : datetime -> M A) w :
  hash_like revision = true ->
  (forall d w1, calls (snd (f d w1)) = calls w1) ->
  asked_hashes w (snd (bind (revisionDate revision) f w)).
Proof.
  intros Hrev Hf. apply asked_hashes_one with (ShowDate revision);
    [exact Hrev|].
  unfold revisionDate, bind, run_git, lift, raise, ret.
  destruct (commit_date git revision) as [e|d]; [reflexivity|].
  pose proof (Hf d {| out := out w; err := err w;
                      calls := ShowDate revision :: calls w |}) as H.
  destruct (f d _) as [[a|c|e] w1]; exact H.
Qed.

Lemma classifyLine_hashes (raw : str) (v : vars) (w : world) :
  asked_hashes w (snd (classifyLine raw v w)).
Proof.
  unfold classifyLine.
  destruct (re_match bugPattern (strip raw)); [apply asked_hashes_refl|].
  destruct (re_match backoutMergePattern (strip raw));
    [apply asked_hashes_refl|].
  destruct (re_match unrecognizedPattern (strip raw)) as [m|] eqn:Hm;
    [|apply asked_hashes_refl].
  apply revisionDate_hashes.
  - apply unrecognizedPattern_revision in Hm. tauto.
  - intros d w1. destruct (dateIsOld d); reflexivity.
Qed.

Lemma reviewLine_hashes (p : patch) (v : vars) (w : world) :
  hash_like (revision_of p) = true ->
  asked_hashes w (snd (reviewLine p v w)).
Proof.
  destruct p as [[revision bugnumber] line]. unfold revision_of. simpl.
  intros Hrev. unfold reviewLine.
  destruct (re_search rEqualPattern line) as [m|].
  - destruct (parseReviewers (group "reviewer" m)).
    + apply asked_hashes_refl.
    + apply revisionDate_hashes; [exact Hrev|]. intros d w1.
      destruct (dateIsOld d); reflexivity.
    + apply revisionDate_hashes; [exact Hrev|]. intros d w1.
      destruct (dateIsOld d); reflexivity.
  - apply revisionDate_hashes; [exact Hrev|]. intros d w1.
    destruct (dateIsOld d); [reflexivity|].
    destruct (str_eqb bugnumber (lit "1968400")); reflexivity.
Qed.

Lemma authorLine_hashes (p : patch) (v : vars) (w : world) :
  hash_like (revision_of p) = true ->
  asked_hashes w (snd (authorLine p v w)).
Proof.
  intros Hrev. apply asked_hashes_one with (ShowAuthor (revision_of p));
    [exact Hrev | apply authorLine_calls].
Qed.

Lemma for_each_world_in {A S} (body : A -> S -> M S) (P : A -> Prop)
    (R : world -> world -> Prop) :
  (forall w, R w w) ->
  (forall w1 w2 w3, R w1 w2 -> R w2 w3 -> R w1 w3) ->
  (forall x s w, P x -> R w (snd (body x s w))) ->
  forall xs s w, Forall P xs -> R w (snd (for_each body xs s w)).
Proof.
  intros Hrefl Htrans Hstep. induction xs as [|x xs IH]; intros s w HP.
  - apply Hrefl.
  - inversion HP as [|? ? Hx Hxs]. subst.
    rewrite for_each_cons. specialize (Hstep x s w Hx).
    destruct (body x s w) as [[s1|c|e] w1]; simpl in *; auto.
    eapply Htrans; [exact Hstep | apply IH; exact Hxs].
Qed.

(** X8. Whatever the file holds and however the run ends, every revision
    the script hands to git is a non-empty string of lower-case letters and
    digits: the group [revision] that the line patterns captured. *)
Theorem git_is_given_hashes (text : str) (w : world) :
  asked_hashes w (snd (main text w)).
Proof.
  assert (Hmain : calls (snd (main text w)) = calls (snd (tallied text w))).
  { rewrite main_cases.
    destruct (tallied text w) as [[v|c|e] w1]; try reflexivity.
    apply report_calls. }
  assert (Ht : asked_hashes w (snd (tallied text w))).
  { rewrite tallied_cases.
    pose proof (for_each_world classifyLine asked_hashes asked_hashes_refl
                  asked_hashes_trans classifyLine_hashes (readlines text)
                  initial_vars w) as H1.
    fold (classified text) in H1.
    destruct (classified text w) as [[v1|c|e] w1] eqn:E1; simpl in H1;
      try exact H1.
    pose proof (classified_vars _ _ _ _ E1) as (Hb1 & _ & Hm1).
    assert (Hbugs : Forall (fun p => hash_like (revision_of p) = true)
                      (bugs v1))
      by (rewrite Hb1; apply bug_patches_hash_like).
    pose proof (for_each_world_in reviewLine _ asked_hashes asked_hashes_refl
                  asked_hashes_trans reviewLine_hashes (bugs v1) v1 w1 Hbugs)
      as H2.
    fold (reviewed v1) in H2.
    destruct (reviewed v1 w1) as [[v2|c|e] w2] eqn:E2; simpl in H2;
      try (eapply asked_hashes_trans; eauto; fail).
    pose proof (reviewed_vars _ _ _ _ E2) as (_ & _ & Hm2).
    eapply asked_hashes_trans; [exact H1|].
    eapply asked_hashes_trans; [exact H2|].
    unfold authored.
    apply (for_each_world_in authorLine _ asked_hashes asked_hashes_refl
             asked_hashes_trans authorLine_hashes).
    simpl. rewrite Hm2, Hm1. simpl.
    apply Forall_forall. intros p Hp. apply filter_In in Hp.
    destruct Hp as [Hp _]. rewrite Forall_forall in Hbugs. auto. }
  destruct Ht as (new & Hc & Hnew). exists new. split; [congruence | exact Hnew].
Qed.

(** ** The lines that reach the patterns hold no newline *)

Lemma lstrip_suffix (p : char -> bool) (s : str) :
  exists pre, s = pre ++ lstrip_by p s.
Proof.
  induction s as [|c s [pre IH]]; simpl.
  - exists []. reflexivity.
  - destruct (p c).
    + exists (c :: pre). simpl. congruence.
    + exists []. reflexivity.
Qed.

Lemma rstrip_In (p : char -> bool) (c : char) (s : str) :
  In c (rstrip_by p s) -> In c s.
Proof.
  induction s as [|a s IH]; simpl; [auto|].
  destruct (rstrip_by p s) as [|b t].
  - destruct (p a); simpl; [intros [] | intros [H|[]]; left; exact H].
  - simpl. intros [H|H]; [auto|]. right. apply IH. exact H.
Qed.

Lemma rstrip_snoc (p : char -> bool) (c : char) (s : str) :
  p c = true -> rstrip_by p (s ++ [c]) = rstrip_by p s.
Proof.
  intros Hc. induction s as [|a s IH]; simpl.
  - rewrite Hc. reflexivity.
  - rewrite IH. reflexivity.
Qed.

Lemma readlines_aux_shape (text cur raw : str) :
  ~ In NL cur ->
  In raw (readlines_aux cur text) ->
  exists body, ~ In NL body /\ (raw = body \/ raw = body ++ [NL]).
Proof.
  revert cur. induction text as [|c text IH]; intros cur Hcur Hin; simpl in Hin.
  - destruct cur as [|a cur]; [contradiction|].
    destruct Hin as [<-|[]]. exists (rev (a :: cur)). split; [|auto].
    intros H. apply in_rev in H. contradiction.
  - destruct (char_eqb c NL) eqn:Hc.
    + apply char_eqb_eq in Hc. subst c. destruct Hin as [<-|Hin].
      * exists (rev cur). split; [|right; reflexivity].
        intros H. apply in_rev in H. contradiction.
      * apply (IH []); auto.
    + apply (IH (c :: cur)); [|exact Hin].
      intros [H|H]; [|contradiction]. subst c.
      rewrite char_eqb_refl in Hc. discriminate.
Qed.

Lemma suffix_of_line (body pre x : str) :
  ~ In NL body -> body ++ [NL] = pre ++ x ->
  x = [] \/ exists body', ~ In NL body' /\ x = body' ++ [NL].
Proof.
  revert body. induction pre as [|a pre IH]; intros body Hb H; simpl in H.
  - right. exists body. auto.
  - destruct body as [|b body]; simpl in H.
    + injection H as _ H. destruct pre; [|discriminate].
      simpl in H. subst x. auto.
    + injection H as _ H. apply (IH body); [|exact H].
      intros Hin. apply Hb. right. exact Hin.
Qed.

Lemma strip_no_newline (text raw : str) :
  In raw (readlines text) -> ~ In NL (strip raw).
Proof.
  intros Hin. apply readlines_aux_shape in Hin; [|auto].
  destruct Hin as (body & Hb & Hraw). unfold strip, strip_by.
  destruct (lstrip_suffix isspace raw) as [pre Hpre].
  intros HNL. apply rstrip_In in HNL as Hl.
  destruct Hraw as [-> | ->].
  - apply Hb. rewrite Hpre. apply in_or_app. right. exact Hl.
  - destruct (suffix_of_line _ _ _ Hb Hpre) as [Hx | (body' & Hb' & Hx)].
    + rewrite Hx in Hl. contradiction.
    + rewrite Hx in HNL. rewrite rstrip_snoc in HNL by reflexivity.
      apply rstrip_In in HNL. contradiction.
Qed.

(** ** Where the annotation starts *)

Lemma starts_with_eat (src s : str) :
  dot_free src = true -> starts_with src s = true ->
  eat src s = Some (skipn (List.length src) s).
Proof.
  intros Hfree H. apply (eat_dot_free _ _ _ Hfree).
  clear Hfree. revert s H. induction src as [|a src IH]; intros s H.
  - reflexivity.
  - destruct s as [|c s]; [discriminate|]. simpl in H.
    apply andb_true_iff in H. destruct H as [Hac H].
    apply char_eqb_eq in Hac. subst c. simpl. f_equal. apply IH. exact H.
Qed.

(** Greedy repetition over a subject made of the class: it takes it all
    when the continuation accepts the end. *)
Lemma star_all (p : char -> bool) pos s cs k m :
  Forall (fun c => p c = true) s ->
  k (pos + List.length s) [] cs = Some m ->
  star p pos s cs k = Some m.
Proof.
  revert pos. induction s as [|c s IH]; intros pos Hall Hk; simpl.
  - rewrite Nat.add_0_r in Hk. exact Hk.
  - inversion Hall as [|? ? Hc Hs]. subst. rewrite Hc.
    rewrite (IH (S pos)); [reflexivity | exact Hs |].
    simpl in Hk. rewrite Nat.add_succ_r in Hk. exact Hk.
Qed.

Lemma no_newline_dot (s : str) :
  ~ In NL s -> Forall (fun c => dot c = true) s.
Proof.
  intros H. apply Forall_forall. intros c Hc. unfold dot.
  destruct (char_eqb c NL) eqn:E; [|reflexivity].
  apply char_eqb_eq in E. subst c. contradiction.
Qed.

Lemma annotation_is_after_first (line : str) :
  ~ In NL line ->
  option_map (group "reviewer") (re_search rEqualPattern line)
  = after_first (lit "r=") line.
Proof.
  unfold re_search. generalize 0 as pos.
  induction line as [|c line IH]; intros pos Hnl.
  - reflexivity.
  - change (search_from rEqualPattern pos (c :: line))
      with (match rmatch rEqualPattern pos (c :: line) [] accept with
            | Some cs => Some cs
            | None => search_from rEqualPattern (S pos) line
            end).
    change (after_first (lit "r=") (c :: line))
      with (if starts_with (lit "r=") (c :: line)
            then Some (skipn (List.length (lit "r=")) (c :: line))
            else after_first (lit "r=") line).
    unfold rEqualPattern at 1. rewrite rmatch_Cat, rmatch_atoms.
    destruct (starts_with (lit "r=") (c :: line)) eqn:Hs.
    + rewrite (starts_with_eat (lit "r=") _ eq_refl Hs).
      set (rest := skipn (List.length (lit "r=")) (c :: line)).
      assert (Hrest : ~ In NL rest).
      { intros H. apply Hnl. unfold rest in H.
        rewrite <- (firstn_skipn (List.length (lit "r=")) (c :: line)).
        apply in_or_app. right. exact H. }
      change (rmatch (Named "reviewer" (Star dot) +++ Eol)
                (pos + List.length (lit "r=")) rest [] accept)
        with (star dot (pos + List.length (lit "r=")) rest []
                (fun pos' s' cs' =>
                   rmatch Eol pos' s'
                     (("reviewer"%string,
                       firstn (pos' - (pos + List.length (lit "r="))) rest)
                        :: cs') accept)).
      erewrite star_all; [|apply no_newline_dot; exact Hrest | reflexivity].
      unfold option_map. rewrite group_head. f_equal.
      replace (pos + List.length (lit "r=") + List.length rest
               - (pos + List.length (lit "r="))) with (List.length rest)
        by lia.
      apply firstn_all.
    + destruct (eat (lit "r=") (c :: line)) as [s'|] eqn:He.
      * apply eat_starts_with in He; [congruence | reflexivity].
      * apply IH. intros H. apply Hnl. right. exact H.
Qed.

(** X9. For every patch that the first loop puts in [bugs], the reviewer
    string that the second loop hands to [parseReviewers] is the text after
    the first "r=" of its line, up to the end of the line; a line without
    "r=" has no annotation. *)
Theorem annotation_of_a_patch (text : str) (p : patch) :
  In p (bug_patches (readlines text)) ->
  option_map (group "reviewer") (re_search rEqualPattern (line_of p))
  = after_first (lit "r=") (line_of p).
Proof.
  intros Hin. apply annotation_is_after_first.
  unfold bug_patches in Hin. apply in_flat_map in Hin.
  destruct Hin as (raw & Hraw & Hp). unfold bug_patch in Hp.
  destruct (re_match bugPattern (strip raw)); [|contradiction].
  destruct Hp as [<-|[]]. simpl. eapply strip_no_newline; eauto.
Qed.

(** ** The entries of [bugs] *)

Lemma named_plus_accept (name : string) (p : char -> bool) pos s cs m :
  rmatch (Named name (Plus p)) pos s cs accept = Some m ->
  exists g, g <> [] /\ Forall (fun c => p c = true) g /\ m = (name, g) :: cs.
Proof.
  simpl. destruct s as [|c s]; [discriminate|].
  destruct (p c) eqn:Hc; [|discriminate].
  intros H. apply star_inv in H. destruct H as (n & Hn & Hall & H).
  replace (S pos + n - pos) with (S n) in H by lia.
  unfold accept in H. injection H as <-.
  exists (c :: firstn n s). simpl.
  split; [discriminate|]. split; [constructor; assumption | reflexivity].
Qed.

(** One component of a sequence matched: on to the rest of the pattern. *)
Ltac peel H :=
  rewrite rmatch_Cat in H; apply rmatch_inv in H;
  let n := fresh "n" in
  let new := fresh "new" in
  destruct H as (n & new & _ & H & _); cbv beta in H.

Lemma bugPattern_bugno (line : str) (m : captures) :
  re_match bugPattern line = Some m ->
  group "bugno" m <> []
  /\ Forall (fun c => isdecimal c = true) (group "bugno" m).
Proof.
  unfold re_match, bugPattern. intros H.
  do 6 peel H.
  apply named_plus_accept in H. destruct H as (g & Hg & Hall & ->).
  rewrite group_head. auto.
Qed.

(** X10. Every entry that the first loop puts in [bugs] has a revision made
    of one or more characters of [[a-z0-9]], a bug number made of one or more
    decimal digits, and a line that is a stripped line of the file, starts
    with the revision and holds no newline. *)
Theorem bugs_entries_are_well_formed (text : str) (p : patch) :
  In p (bug_patches (readlines text)) ->
  hash_like (revision_of p) = true
  /\ bugnumber_of p <> []
  /\ Forall (fun c => isdecimal c = true) (bugnumber_of p)
  /\ (exists rest, line_of p = revision_of p ++ rest)
  /\ ~ In NL (line_of p)
  /\ exists raw, In raw (readlines text) /\ line_of p = strip raw.
Proof.
  intros Hin. unfold bug_patches in Hin. apply in_flat_map in Hin.
  destruct Hin as (raw & Hraw & Hp). unfold bug_patch in Hp.
  destruct (re_match bugPattern (strip raw)) as [m|] eqn:Hm;
    [|contradiction].
  destruct Hp as [<-|[]]. unfold revision_of, bugnumber_of, line_of. simpl.
  pose proof (bugPattern_revision _ _ Hm) as [Hrev Hpre].
  pose proof (bugPattern_bugno _ _ Hm) as [Hne Hdig].
  repeat split; auto.
  - eapply strip_no_newline; eauto.
  - exists raw. auto.
Qed.

(** ** Entries that name a peer *)

Lemma lstrip_pad (p : char -> bool) (pad s : str) :
  Forall (fun c => p c = true) pad ->
  lstrip_by p (pad ++ s) = lstrip_by p s.
Proof.
  induction pad as [|c pad IH]; intros H; [reflexivity|].
  inversion H as [|? ? Hc Hpad]. subst. simpl. rewrite Hc. auto.
Qed.

Lemma lstrip_head (p : char -> bool) (c : char) (s : str) :
  p c = false -> lstrip_by p (c :: s) = c :: s.
Proof. intros H. simpl. rewrite H. reflexivity. Qed.

Lemma rstrip_all (p : char -> bool) (t : str) :
  Forall (fun c => p c = true) t -> rstrip_by p t = [].
Proof.
  induction t as [|c t IH]; intros H; [reflexivity|].
  inversion H as [|? ? Hc Ht]. subst. simpl. rewrite (IH Ht), Hc. reflexivity.
Qed.

Lemma rstrip_keep (p : char -> bool) (a : str) (c : char) (t : str) :
  p c = false ->
  rstrip_by p ((a ++ [c]) ++ t) = (a ++ [c]) ++ rstrip_by p t.
Proof.
  intros Hc. induction a as [|x a IH]; simpl.
  - rewrite Hc. destruct (rstrip_by p t); reflexivity.
  - rewrite IH. destruct a; reflexivity.
Qed.

Lemma plain_name_shape (n : str) :
  plain_name n = true ->
  Forall (fun c => reviewer_char c = true) n
  /\ exists init l, n = init ++ [l] /\ mem l (lit " .])") = false.
Proof.
  unfold plain_name. destruct (rev n) as [|l r] eqn:Hr; [discriminate|].
  rewrite andb_true_iff, negb_true_iff. intros [Hall Hl]. split.
  - apply Forall_forall. rewrite forallb_forall in Hall. exact Hall.
  - exists (rev r), l. split; [|exact Hl].
    rewrite <- (rev_involutive n), Hr. reflexivity.
Qed.

Lemma reviewer_group_accepts (name : str) pos cs :
  name <> [] -> Forall (fun c => reviewer_char c = true) name ->
  rmatch (Named "reviewer" (Plus reviewer_char) +++ Eol) pos name cs accept
  = Some (("reviewer"%string, name) :: cs).
Proof.
  intros Hne Hall. destruct name as [|c s]; [congruence|].
  inversion Hall as [|? ? Hc Hs]. subst. simpl. rewrite Hc.
  apply star_all; [exact Hs|]. cbv beta. cbn [rmatch]. unfold accept.
  replace (S pos + List.length s - pos) with (S (List.length s)) by lia.
  simpl. rewrite firstn_all. reflexivity.
Qed.

Lemma no_prefix_in_name (name src : str) :
  Forall (fun c => reviewer_char c = true) name ->
  dot_free src = true -> In 61%N src -> eat src name = None.
Proof.
  intros Hall Hfree Heq. destruct (eat src name) as [s'|] eqn:He; [|reflexivity].
  apply (eat_dot_free _ _ _ Hfree) in He. subst name.
  rewrite Forall_forall in Hall.
  assert (H : reviewer_char 61%N = true)
    by (apply Hall; apply in_or_app; left; exact Heq).
  discriminate H.
Qed.

Lemma reviewerPattern_accepts (prefix name : str) :
  In prefix [lit ""; lit "r="; lit "sr="] ->
  name <> [] -> Forall (fun c => reviewer_char c = true) name ->
  option_map (group "reviewer") (re_match reviewerPattern (prefix ++ name))
  = Some name.
Proof.
  intros Hp Hne Hall. unfold re_match, reviewerPattern.
  change (rmatch (Bol +++ ?r1) 0 ?x [] accept) with (rmatch r1 0 x [] accept).
  change (rmatch (Opt ?r1 +++ ?r2) 0 ?x [] accept)
    with (match rmatch r1 0 x [] (fun pos s cs => rmatch r2 pos s cs accept)
          with Some y => Some y
          | None => rmatch r2 0 x [] accept
          end).
  change (rmatch (Or ?a ?b) 0 ?x [] ?K)
    with (match rmatch a 0 x [] K with
          | Some y => Some y
          | None => rmatch b 0 x [] K
          end).
  rewrite !rmatch_atoms.
  destruct Hp as [<-|[<-|[<-|[]]]].
  - change (lit "" ++ name) with name.
    rewrite (no_prefix_in_name name (lit "r=")), (no_prefix_in_name name (lit "sr="));
      try assumption; try reflexivity; [| simpl; auto | simpl; auto].
    rewrite reviewer_group_accepts by assumption.
    unfold option_map. rewrite group_head. reflexivity.
  - replace (eat (lit "r=") (lit "r=" ++ name)) with (Some name)
      by (symmetry; apply eat_dot_free; reflexivity).
    rewrite reviewer_group_accepts by assumption.
    unfold option_map. rewrite group_head. reflexivity.
  - replace (eat (lit "r=") (lit "sr=" ++ name)) with (@None str)
      by reflexivity.
    replace (eat (lit "sr=") (lit "sr=" ++ name)) with (Some name)
      by (symmetry; apply eat_dot_free; reflexivity).
    rewrite reviewer_group_accepts by assumption.
    unfold option_map. rewrite group_head. reflexivity.
Qed.

Lemma reviewerName_padded (pad prefix name trail : str) :
  Forall (fun c => c = 32%N) pad ->
  In prefix [lit ""; lit "r="; lit "sr="] ->
  plain_name name = true ->
  Forall (fun c => mem c (lit " .])") = true) trail ->
  reviewerName (pad ++ prefix ++ name ++ trail) = Some name.
Proof.
  intros Hpad Hp Hname Htrail.
  destruct (plain_name_shape _ Hname) as (Hall & init & l & Hn & Hl).
  assert (Hne : name <> []) by (rewrite Hn; destruct init; discriminate).
  assert (Hsp : forall c, reviewer_char c = true -> char_eqb 32%N c = false).
  { intros c Hc. destruct (char_eqb 32%N c) eqn:E; [|reflexivity].
    apply char_eqb_eq in E. subst c. discriminate Hc. }
  assert (Hl32 : char_eqb 32%N l = false).
  { apply Hsp. rewrite Forall_forall in Hall. apply Hall. rewrite Hn.
    apply in_or_app. right. left. reflexivity. }
  assert (Hcore : exists h core', prefix ++ name = h :: core'
                                  /\ char_eqb 32%N h = false).
  { destruct Hp as [<-|[<-|[<-|[]]]].
    - destruct name as [|h t]; [congruence|]. exists h, t. split; auto.
      apply Hsp. inversion Hall. assumption.
    - eexists. eexists. split; reflexivity.
    - eexists. eexists. split; reflexivity. }
  destruct Hcore as (h & core' & Hcore & Hh).
  assert (Hx : rstrip_by (fun c => mem c (lit " .])"))
                 (strip_by (char_eqb 32%N) (pad ++ prefix ++ name ++ trail))
               = prefix ++ name).
  { unfold strip_by. rewrite lstrip_pad.
    2:{ eapply Forall_impl; [|exact Hpad]. intros c ->. reflexivity. }
    rewrite app_assoc, Hcore.
    change ((h :: core') ++ trail) with (h :: core' ++ trail).
    rewrite lstrip_head by exact Hh.
    change (h :: core' ++ trail) with ((h :: core') ++ trail).
    rewrite <- Hcore, Hn, app_assoc.
    rewrite rstrip_keep by exact Hl32.
    rewrite rstrip_keep by exact Hl.
    rewrite rstrip_all; [apply app_nil_r|].
    apply Forall_forall. intros c Hc. apply rstrip_In in Hc.
    rewrite Forall_forall in Htrail. auto. }
  unfold reviewerName. rewrite Hx.
  pose proof (reviewerPattern_accepts prefix name Hp Hne Hall) as Hm.
  destruct (re_match reviewerPattern (prefix ++ name)) as [m|];
    [|discriminate].
  simpl in Hm. exact Hm.
Qed.

Lemma split_first (e r : str) :
  ~ In 44%N e ->
  split 44%N e = [e] /\ split 44%N (e ++ 44%N :: r) = e :: split 44%N r.
Proof.
  induction e as [|c e IH]; intros H.
  - split; [reflexivity|]. simpl. reflexivity.
  - assert (Hc : char_eqb c 44%N = false).
    { destruct (char_eqb c 44%N) eqn:E; [|reflexivity].
      apply char_eqb_eq in E. subst c. exfalso. apply H. left. reflexivity. }
    destruct IH as [IH1 IH2]; [intros Hin; apply H; right; exact Hin|].
    simpl. rewrite Hc, IH1, IH2. auto.
Qed.

Lemma peers_plain (n : str) : In n webIDLPeersRE -> plain_name n = true.
Proof.
  assert (H : forallb plain_name webIDLPeersRE = true) by reflexivity.
  rewrite forallb_forall in H. apply H.
Qed.

(** X11. An annotation whose first entry is the name of a listed peer is
    OK, whatever follows the first comma, also when the name comes after
    spaces, after [r=] or [sr=], and before any run of spaces, dots and
    closing brackets. *)
Theorem padded_peer_entry_is_OK (pad prefix name trail rest : str) :
  Forall (fun c => c = 32%N) pad ->
  In prefix [lit ""; lit "r="; lit "sr="] ->
  In name webIDLPeersRE ->
  Forall (fun c => mem c (lit " .])") = true) trail ->
  rest = [] \/ (exists r, rest = 44%N :: r) ->
  parseReviewers (pad ++ prefix ++ name ++ trail ++ rest) = OK.
Proof.
  intros Hpad Hp Hpeer Htrail Hrest.
  pose proof (peers_plain _ Hpeer) as Hplain.
  pose proof (reviewerName_padded pad prefix name trail Hpad Hp Hplain Htrail)
    as Hname.
  assert (Hcomma : ~ In 44%N (pad ++ prefix ++ name ++ trail)).
  { intros H. repeat (apply in_app_or in H; destruct H as [H|H]).
    - rewrite Forall_forall in Hpad. apply Hpad in H. discriminate H.
    - destruct Hp as [<-|[<-|[<-|[]]]]; simpl in H;
        repeat (destruct H as [H|H]; [discriminate H|]); exact H.
    - destruct (plain_name_shape _ Hplain) as [Hall _].
      rewrite Forall_forall in Hall. apply Hall in H. discriminate H.
    - rewrite Forall_forall in Htrail. apply Htrail in H. discriminate H. }
  assert (Hsplit : exists others,
             split 44%N (pad ++ prefix ++ name ++ trail ++ rest)
             = (pad ++ prefix ++ name ++ trail) :: others).
  { destruct (split_first (pad ++ prefix ++ name ++ trail) [] Hcomma)
      as [H1 _].
    destruct Hrest as [-> | [r ->]].
    - exists []. rewrite app_nil_r. exact H1.
    - exists (split 44%N r).
      destruct (split_first (pad ++ prefix ++ name ++ trail) r Hcomma)
        as [_ H2].
      etransitivity; [|exact H2]. f_equal.
      rewrite <- !app_assoc. reflexivity. }
  destruct Hsplit as [others Hsplit].
  unfold parseReviewers. rewrite Hsplit. simpl. rewrite Hname.
  replace (isPeer name) with true; [reflexivity|].
  symmetry. apply isPeer_member; [apply peers_no_newline|]; assumption.
Qed.

(** ** The lines that the generic pattern takes *)

(** Greedy repetition finds a match whenever some number of repetitions
    leads to one. *)
Lemma star_some (p : char -> bool) (n : nat) s pos cs k :
  n <= List.length s ->
  Forall (fun c => p c = true) (firstn n s) ->
  k (pos + n) (skipn n s) cs <> None ->
  star p pos s cs k <> None.
Proof.
  revert s pos. induction n as [|n IH]; intros s pos Hn Hall Hk.
  - rewrite Nat.add_0_r in Hk. simpl in Hk.
    destruct s as [|c s]; simpl; [exact Hk|].
    destruct (p c); [|exact Hk].
    destruct (star p (S pos) s cs k); [discriminate | exact Hk].
  - destruct s as [|c s]; simpl in *; [lia|].
    inversion Hall as [|? ? Hc Hs]. subst. rewrite Hc.
    rewrite Nat.add_succ_r in Hk.
    assert (Hn' : n <= List.length s) by lia.
    specialize (IH s (S pos) Hn' Hs Hk).
    destruct (star p (S pos) s cs k); [discriminate | contradiction].
Qed.

Lemma matches_iff (r : regex) (s : str) :
  matches r s = true <-> re_match r s <> None.
Proof.
  unfold matches. destruct (re_match r s); split; congruence.
Qed.

(** X12. On a line without newline the generic pattern matches exactly
    when the line is a run of one or more characters of [[a-z0-9]], a space,
    and anything: only a line of another form, such as the hash alone of a
    commit with an empty summary, can reach the last branch of the first
    loop. *)
Theorem generic_pattern_language (line : str) :
  ~ In NL line ->
  matches unrecognizedPattern line = true
  <-> exists g rest, hash_like g = true /\ line = g ++ 32%N :: rest.
Proof.
  intros Hnl. rewrite matches_iff. split.
  - destruct (re_match unrecognizedPattern line) as [m|] eqn:Hm;
      [intros _ | congruence].
    unfold re_match, unrecognizedPattern in Hm.
    change (rmatch (Bol +++ ?X) 0 line [] accept)
      with (rmatch X 0 line [] accept) in Hm.
    apply named_plus_inv in Hm. destruct Hm as (g & s' & Hg & Hall & -> & H).
    rewrite rmatch_Cat, rmatch_atoms in H.
    destruct (eat (lit " ") s') as [s''|] eqn:He; [|discriminate].
    apply (eat_dot_free (lit " ") _ _ eq_refl) in He. subst s'.
    exists g, s''. split; [|reflexivity].
    unfold hash_like. destruct g as [|c g]; [congruence|].
    apply forallb_forall. rewrite Forall_forall in Hall. exact Hall.
  - intros (g & rest & Hg & ->). unfold re_match, unrecognizedPattern.
    change (rmatch (Bol +++ ?X) 0 ?l [] accept)
      with (rmatch X 0 l [] accept).
    unfold hash_like in Hg. destruct g as [|c g]; [discriminate|].
    rewrite forallb_forall in Hg.
    rewrite rmatch_Cat. simpl rmatch at 1.
    change ((c :: g) ++ 32%N :: rest) with (c :: g ++ 32%N :: rest).
    cbv iota beta. rewrite (Hg c (or_introl eq_refl)).
    apply (star_some lower_or_digit (List.length g)).
    + rewrite length_app. lia.
    + rewrite firstn_app, Nat.sub_diag, firstn_all, app_nil_r.
      apply Forall_forall. intros x Hx. apply Hg. right. exact Hx.
    + rewrite skipn_app, Nat.sub_diag, skipn_all, app_nil_l.
      simpl skipn. change (atom_class 32%N 32%N) with true. cbv iota.
      intros H.
      assert (Hrest : Forall (fun x => dot x = true) rest).
      { apply no_newline_dot. intros Hin. apply Hnl.
        right. apply in_or_app. right. right. exact Hin. }
      erewrite star_all in H; [discriminate H | exact Hrest | reflexivity].
Qed.

(** ** A bug-fix line is no backout *)

Lemma space_not_hash (c : char) :
  isspace c = true -> lower_or_digit c = false.
Proof.
  intros H. destruct (lower_or_digit c) eqn:E; [exfalso | reflexivity].
  unfold isspace in H. unfold lower_or_digit, in_range in E. simpl in E.
  repeat rewrite ?orb_true_iff, ?andb_true_iff, ?N.leb_le, ?N.eqb_eq in H.
  repeat rewrite ?orb_true_iff, ?andb_true_iff, ?N.leb_le, ?N.eqb_eq in E.
  lia.
Qed.

Lemma rmatch_Or (r1 r2 : regex) pos s cs k :
  rmatch (Or r1 r2) pos s cs k
  = match rmatch r1 pos s cs k with
    | Some r => Some r
    | None => rmatch r2 pos s cs k
    end.
Proof. reflexivity. Qed.

Lemma rmatch_Opt (r1 : regex) pos s cs k :
  rmatch (Opt r1) pos s cs k
  = match rmatch r1 pos s cs k with
    | Some r => Some r
    | None => k pos s cs
    end.
Proof. reflexivity. Qed.

Lemma rmatch_Plus (p : char -> bool) pos s cs k :
  rmatch (Plus p) pos s cs k
  = match s with
    | c :: s' => if p c then star p (S pos) s' cs k else None
    | [] => None
    end.
Proof. reflexivity. Qed.

(** A string has one first character outside a class. *)
Lemma first_gap_unique (p : char -> bool) (g1 g2 : str) c1 c2 t1 t2 :
  Forall (fun c => p c = true) g1 -> Forall (fun c => p c = true) g2 ->
  p c1 = false -> p c2 = false ->
  g1 ++ c1 :: t1 = g2 ++ c2 :: t2 ->
  g1 = g2 /\ c1 = c2 /\ t1 = t2.
Proof.
  intros H1 H2 Hc1 Hc2. revert g2 H2.
  induction H1 as [|a g1 Ha _ IH]; intros g2 H2 Heq;
    destruct H2 as [|b g2 Hb H2]; simpl in Heq.
  - injection Heq as -> ->. auto.
  - injection Heq as -> _. congruence.
  - injection Heq as -> _. congruence.
  - injection Heq as -> Heq. destruct (IH g2 H2 Heq) as (-> & -> & ->). auto.
Qed.

(** X13. No line is taken both by the bug-fix pattern and by the backout
    and merge pattern, so the order of the first two tests of the first loop
    does not matter: after the hash and the space the one wants white space,
    [Fix for ], [Bug] or [bug], the other one of the ten backout and merge
    words. *)
Theorem bug_fix_is_no_backout (line : str) :
  matches bugPattern line = true ->
  matches backoutMergePattern line = false.
Proof.
  intros Hbug. destruct (matches backoutMergePattern line) eqn:Hback;
    [exfalso | reflexivity].
  rewrite matches_iff in Hback.
  unfold matches in Hbug.
  destruct (re_match bugPattern line) as [m|] eqn:Hm; [clear Hbug|discriminate].
  unfold re_match, bugPattern in Hm.
  change (rmatch (Bol +++ ?X) 0 line [] accept)
    with (rmatch X 0 line [] accept) in Hm.
  apply named_plus_inv in Hm. destruct Hm as (g & s' & _ & Hall & Hline & H).
  rewrite rmatch_Cat, rmatch_Plus in H.
  destruct s' as [|c s1]; [discriminate|].
  destruct (isspace c) eqn:Hc; [|discriminate].
  apply star_inv in H. destruct H as (n & Hn & Hsp & H).
  unfold re_match, backoutMergePattern in Hback.
  change (rmatch (Bol +++ ?X) 0 line [] accept)
    with (rmatch X 0 line [] accept) in Hback.
  destruct (rmatch _ 0 line [] accept) as [m2|] eqn:Hm2; [clear Hback|congruence].
  apply named_plus_inv in Hm2.
  destruct Hm2 as (g2 & s2 & _ & Hall2 & Hline2 & H2).
  rewrite rmatch_Cat, rmatch_atoms in H2.
  destruct (eat (lit " ") s2) as [s3|] eqn:He; [|discriminate].
  apply (eat_dot_free (lit " ") _ _ eq_refl) in He. subst s2.
  change (lit " " ++ s3) with (32%N :: s3) in Hline2.
  rewrite Hline in Hline2.
  apply (first_gap_unique lower_or_digit) in Hline2;
    [| assumption | assumption | apply space_not_hash; exact Hc | reflexivity].
  destruct Hline2 as (_ & _ & <-).
  assert (Hname : exists name rest,
             In name (backoutRE ++ mergeRE) /\ s1 = name ++ rest).
  { rewrite rmatch_Cat, rmatch_Or in H2.
    match type of H2 with
    | match ?A with Some _ => _ | None => ?B end = _ =>
        assert (Hor : A <> None \/ B <> None)
          by (destruct A; [left; discriminate | right; congruence])
    end.
    clear H2. destruct Hor as [Hor|Hor];
      apply rmatch_joined in Hor; try discriminate;
      destruct Hor as (name & rest & Hin & Heat & _);
      exists name, rest; (split; [apply in_or_app; auto|]).
    - apply eat_dot_free in Heat; [exact Heat|]. clear Heat.
      revert name Hin. apply Forall_forall. repeat constructor.
    - apply eat_dot_free in Heat; [exact Heat|]. clear Heat.
      revert name Hin. apply Forall_forall. repeat constructor. }
  destruct Hname as (name & rest & Hin & ->).
  destruct n as [|n].
  - rewrite Nat.add_0_r in H. simpl skipn in H.
    rewrite rmatch_Cat, rmatch_Opt, rmatch_atoms in H.
    assert (Hfix : eat (lit "Fix for ") (name ++ rest) = None
                   /\ eat (lit "Bug") (name ++ rest) = None
                   /\ eat (lit "bug") (name ++ rest) = None).
    { clear - Hin. revert name Hin. apply Forall_forall.
      repeat (constructor; [repeat split; reflexivity|]). constructor. }
    destruct Hfix as (Hf & HB & Hb). rewrite Hf in H.
    rewrite rmatch_Cat, rmatch_Or, !rmatch_atoms, HB, Hb in H. discriminate.
  - assert (Hhead : exists a t, name ++ rest = a :: t /\ isspace a = false).
    { clear - Hin. revert name Hin. apply Forall_forall.
      repeat (constructor; [eexists _, _; split; reflexivity|]). constructor. }
    destruct Hhead as (a & t & Heq & Ha). rewrite Heq in Hsp.
    simpl in Hsp. inversion Hsp. congruence.
Qed.

(** ** The error stream of a run that reaches the final test *)

(** X14. On a run whose three loops end normally, the error stream gets the
    messages of the unknown violations, in the order of the file and with
    nothing between them, and then, when there is at least one, the closing
    message; the run ends normally exactly when there is none, and with
    [exit(-1)] otherwise. *)
Theorem error_stream_of_a_complete_run (text : str) (w : world) (v : vars)
    (w1 : world) :
  tallied text w = (Ret v, w1) ->
  let unknown :=
    filter unknown_violation
      (filter missing_not_old (bug_patches (readlines text))) in
  err (snd (main text w))
  = err w ++ concat (map violation_message unknown)
    ++ match unknown with
       | [] => []
       | _ :: _ =>
           lit "!!! Unknown non-old patches missing WebIDL review !!!"
       end
  /\ fst (main text w)
     = match unknown with [] => Ret tt | _ :: _ => SysExit (-1) end.
Proof.
  intros H unknown.
  destruct (unknown_violations_reported text w v w1 H) as [Herr Hnum].
  fold unknown in Herr, Hnum.
  rewrite main_cases, H.
  destruct unknown as [|p unknown'].
  - rewrite report_clean by exact Hnum. simpl.
    rewrite Herr. simpl. auto.
  - rewrite report_unknown by (rewrite Hnum; simpl; lia).
    cbn [fst snd err]. rewrite Herr, <- app_assoc. auto.
Qed.

(** ** When the audit passes *)

(** A loop ends normally exactly when its body does at every item, for a
    body whose way of ending depends on the item alone. *)
Lemma for_each_returns {A S} (body : A -> S -> M S) (Q P : A -> Prop) :
  (forall x s w,
      Q x -> ((exists s1 w1, body x s w = (Ret s1, w1)) <-> P x)) ->
  forall xs s w,
    Forall Q xs ->
    ((exists s' w', for_each body xs s w = (Ret s', w')) <-> Forall P xs).
Proof.
  intros Hbody. induction xs as [|x xs IH]; intros s w HQ.
  - split; [constructor | intros _; exists s, w; reflexivity].
  - inversion HQ as [|? ? Hx Hxs]. subst. rewrite for_each_cons. split.
    + intros (s' & w' & H).
      destruct (body x s w) as [[s1|c|e] w1] eqn:Hb; try discriminate.
      constructor.
      * apply (Hbody x s w Hx). eauto.
      * apply (IH s1 w1 Hxs). eauto.
    + intros HP. inversion HP as [|? ? Hpx Hpxs]. subst.
      apply (Hbody x s w Hx) in Hpx. destruct Hpx as (s1 & w1 & Hb).
      rewrite Hb. apply (IH s1 w1 Hxs). exact Hpxs.
Qed.

Lemma classifyLine_returns (raw : str) (v : vars) (w : world) :
  (exists v1 w1, classifyLine raw v w = (Ret v1, w1))
  <-> line_class_of (strip raw) <> Error.
Proof.
  pose proof (classifyLine_outcome raw v w) as H.
  destruct (classifyLine raw v w) as [r w1]. simpl in H.
  destruct (line_class_of (strip raw)); simpl in H.
  - destruct H as (revision & bugno & ->).
    split; [discriminate | eauto].
  - subst r. split; [discriminate | eauto].
  - subst r. split; [discriminate | eauto].
  - destruct H as [H _]. split; [|congruence].
    intros (v1 & w1' & Heq). injection Heq as -> _.
    exfalso. exact (H v1 eq_refl).
Qed.

Lemma reviewLine_returns (p : patch) (v : vars) (w : world) :
  (exists v1 w1, reviewLine p v w = (Ret v1, w1))
  <-> missing_not_old p = true \/ exists c, fate p = Some c.
Proof.
  split.
  - intros (v1 & w1 & H). apply reviewLine_fate in H.
    destruct H as [(_ & c & Hc & _) | [H _]]; eauto.
  - destruct p as [[revision bugnumber] line].
    unfold reviewLine, missing_not_old, fate.
    unfold revisionDate, bind, run_git, lift, raise, ret.
    destruct (re_search rEqualPattern line) as [m|].
    + destruct (parseReviewers (group "reviewer" m)); [eauto | |].
      * destruct (commit_date git revision) as [e|d].
        { intros [H|[c H]]; discriminate. }
        destruct (dateIsOld d); [eauto|].
        intros [H|[c H]]; discriminate.
      * destruct (commit_date git revision) as [e|d].
        { intros [H|[c H]]; discriminate. }
        destruct (dateIsOld d); eauto.
    + destruct (commit_date git revision) as [e|d].
      { intros [H|[c H]]; discriminate. }
      destruct (dateIsOld d); [eauto|].
      destruct (str_eqb bugnumber (lit "1968400")); [eauto|].
      intros [H|[c H]]; discriminate.
Qed.

Lemma authorLine_returns (p : patch) (v : vars) (w : world) :
  missing_not_old p = true ->
  ((exists v1 w1, authorLine p v w = (Ret v1, w1))
   <-> exists c, fate p = Some c).
Proof.
  intros Hp. split.
  - intros (v1 & w1 & H).
    destruct (authorLine_fate p v w v1 w1 Hp H) as (c & Hc & _). eauto.
  - revert Hp. destruct p as [[revision bugnumber] line].
    unfold authorLine, missing_not_old, fate, matches.
    destruct (re_search rEqualPattern line) as [m|]; [|discriminate].
    destruct (parseReviewers (group "reviewer" m)); try discriminate.
    destruct (commit_date git revision) as [e|d]; [discriminate|].
    destruct (dateIsOld d); [discriminate|]. intros _.
    unfold revisionAuthor, bind, run_git, lift, raise, ret, stderr_write.
    destruct (committer_email git revision) as [e|author].
    { intros [c H]. discriminate. }
    intros _.
    destruct (re_match webIDLPeersEmailPattern (strip author)); [eauto|].
    destruct (str_eqb bugnumber (lit "1966190")); [eauto|].
    destruct (str_eqb bugnumber (lit "1979610")); eauto.
Qed.

(** The three loops end normally exactly when no line of the file is of the
    class error and every bug-fix patch has a fate. *)
Lemma tallied_returns (text : str) (w : world) :
  (exists v w', tallied text w = (Ret v, w'))
  <-> Forall (fun raw => line_class_of (strip raw) <> Error) (readlines text)
      /\ Forall (fun p => exists c, fate p = Some c)
           (bug_patches (readlines text)).
Proof.
  pose proof (for_each_returns classifyLine (fun _ => True)
                (fun raw => line_class_of (strip raw) <> Error)
                (fun x s w0 _ => classifyLine_returns x s w0)
                (readlines text) initial_vars w
                (proj2 (Forall_forall _ _) (fun _ _ => I))) as H1.
  fold (classified text) in H1. rewrite tallied_cases.
  assert (H2 : forall v1 w1,
             (exists v2 w2, reviewed v1 w1 = (Ret v2, w2))
             <-> Forall (fun p => missing_not_old p = true
                                  \/ exists c, fate p = Some c) (bugs v1)).
  { intros v1 w1.
    exact (for_each_returns reviewLine (fun _ => True) _
             (fun x s w0 _ => reviewLine_returns x s w0)
             (bugs v1) v1 w1 (proj2 (Forall_forall _ _) (fun _ _ => I))). }
  assert (H3 : forall v2 w2,
             Forall (fun p => missing_not_old p = true)
               (bugsMissingReview v2) ->
             ((exists v3 w3, authored v2 w2 = (Ret v3, w3))
              <-> Forall (fun p => exists c, fate p = Some c)
                    (bugsMissingReview v2))).
  { intros v2 w2 Hq.
    exact (for_each_returns authorLine _ _
             (fun x s w0 Hx => authorLine_returns x s w0 Hx)
             (bugsMissingReview v2) (set_bugs [] v2) w2 Hq). }
  assert (Hq : Forall (fun p => missing_not_old p = true)
                 (filter missing_not_old (bug_patches (readlines text)))).
  { apply Forall_forall. intros p Hp. apply filter_In in Hp. apply Hp. }
  split.
  - intros (v & w' & H).
    destruct (classified text w) as [[v1|c|e] w1] eqn:E1; try discriminate.
    destruct (reviewed v1 w1) as [[v2|c|e] w2] eqn:E2; try discriminate.
    destruct (classified_vars _ _ _ _ E1) as (Hb1 & _ & Hm1).
    destruct (reviewed_vars _ _ _ _ E2) as (_ & _ & Hm2).
    rewrite Hm1, Hb1 in Hm2. simpl in Hm2.
    split; [apply H1; eauto|].
    assert (Hr : Forall (fun p => missing_not_old p = true
                                  \/ exists c, fate p = Some c) (bugs v1))
      by (apply (H2 v1 w1); eauto).
    assert (Ha : Forall (fun p => exists c, fate p = Some c)
                   (bugsMissingReview v2)).
    { apply (H3 v2 w2); [rewrite Hm2; exact Hq | eauto]. }
    rewrite Hb1 in Hr. rewrite Hm2 in Ha.
    rewrite Forall_forall in Hr, Ha. apply Forall_forall. intros p Hp.
    destruct (Hr p Hp) as [Hmno|Hf]; [|exact Hf].
    apply Ha. apply filter_In. auto.
  - intros [Hl Hp]. apply H1 in Hl. destruct Hl as (v1 & w1 & E1).
    rewrite E1. destruct (classified_vars _ _ _ _ E1) as (Hb1 & _ & Hm1).
    assert (E2 : exists v2 w2, reviewed v1 w1 = (Ret v2, w2)).
    { apply H2. rewrite Hb1. eapply Forall_impl; [|exact Hp].
      intros p Hf. right. exact Hf. }
    destruct E2 as (v2 & w2 & E2). rewrite E2.
    destruct (reviewed_vars _ _ _ _ E2) as (_ & _ & Hm2).
    rewrite Hm1, Hb1 in Hm2. simpl in Hm2.
    apply H3; rewrite Hm2; [exact Hq|].
    rewrite Forall_forall in Hp. apply Forall_forall. intros p Hin.
    apply filter_In in Hin. apply Hp. apply Hin.
Qed.

(** The patches whose fate is [numUnknownMissing] are the unknown violations
    among the patches of the second stage. *)
Lemma fate_unknown (p : patch) :
  fate p = Some NumUnknownMissing
  <-> missing_not_old p = true /\ unknown_violation p = true.
Proof.
  destruct p as [[revision bugnumber] line].
  unfold fate, missing_not_old, unknown_violation, revision_of, bugnumber_of.
  cbn [fst snd].
  repeat first
    [ progress cbn [orb andb negb]
    | match goal with
      | |- context [str_eqb ?a ?b] => destruct (str_eqb a b)
      | |- context [match ?x with _ => _ end] => destruct x
      end ];
    simpl; split; try discriminate;
    try (intros [H1 H2]; discriminate); auto.
Qed.

(** X15. The script ends normally, with the report printed and status zero,
    exactly when no line of the file is of the class error and every bug-fix
    line has a fate other than [numUnknownMissing]: in every other case it
    ends on [exit(-1)] or on an exception. *)
Theorem audit_passes_iff (text : str) (w : world) :
  fst (main text w) = Ret tt
  <-> Forall (fun raw => line_class_of (strip raw) <> Error) (readlines text)
      /\ Forall (fun p => exists c, fate p = Some c /\ c <> NumUnknownMissing)
           (bug_patches (readlines text)).
Proof.
  rewrite main_cases. split.
  - intros H. destruct (tallied text w) as [[v|c|e] w1] eqn:E;
      try discriminate.
    destruct (proj1 (tallied_returns text w) (ex_intro _ v (ex_intro _ w1 E)))
      as [Hl Hp].
    split; [exact Hl|].
    destruct (unknown_violations_reported text w v w1 E) as [_ Hnum].
    destruct (numUnknownMissing v) as [|n] eqn:Hn.
    2:{ rewrite report_unknown in H by lia. discriminate. }
    symmetry in Hnum. apply length_zero_iff_nil in Hnum.
    rewrite Forall_forall in Hp. apply Forall_forall. intros p Hin.
    destruct (Hp p Hin) as [c Hc]. exists c. split; [exact Hc|].
    intros ->. apply fate_unknown in Hc. destruct Hc as [Hm Hu].
    assert (Hin' : In p (filter unknown_violation
                           (filter missing_not_old
                              (bug_patches (readlines text)))))
      by (apply filter_In; split; [apply filter_In; auto | exact Hu]).
    rewrite Hnum in Hin'. exact Hin'.
  - intros [Hl Hp].
    assert (Hp' : Forall (fun p => exists c, fate p = Some c)
                    (bug_patches (readlines text))).
    { eapply Forall_impl; [|exact Hp]. intros p (c & Hc & _). eauto. }
    destruct (proj2 (tallied_returns text w) (conj Hl Hp')) as (v & w1 & E).
    rewrite E.
    destruct (unknown_violations_reported text w v w1 E) as [_ Hnum].
    rewrite report_clean; [reflexivity|]. rewrite Hnum.
    apply length_zero_iff_nil.
    destruct (filter unknown_violation _) as [|p l] eqn:Hf; [reflexivity|].
    exfalso.
    assert (Hin : In p (filter unknown_violation
                          (filter missing_not_old
                             (bug_patches (readlines text)))))
      by (rewrite Hf; left; reflexivity).
    apply filter_In in Hin. destruct Hin as [Hin Hu].
    apply filter_In in Hin. destruct Hin as [Hin Hm].
    rewrite Forall_forall in Hp. destruct (Hp p Hin) as (c & Hc & Hne).
    apply Hne. pose proof (proj2 (fate_unknown p) (conj Hm Hu)) as Hc'.
    congruence.
Qed.

End Script.

(** ** The model at work *)

Example bugPattern_fix_for :
  option_map (fun m => (group "revision" m, group "bugno" m))
    (re_match (bugPattern ascii_decimal)
       (lit "0a1b2c   Fix for bug 4242: crash r=bz"))
  = Some (lit "0a1b2c", lit "4242").
Proof. vm_compute. reflexivity. Qed.

Example backout_line :
  matches backoutMergePattern (lit "0a1b2c Backed out changeset 3d4e5f")
  = true
  /\ matches backoutMergePattern (lit "0a1b2c Backedout") = false.
Proof. split; vm_compute; reflexivity. Qed.

Example unrecognized_needs_a_space :
  option_map (group "summary")
    (re_match unrecognizedPattern (lit "0a1b2c No bug - typo"))
  = Some (lit "No bug - typo")
  /\ re_match unrecognizedPattern (lit "0a1b2c") = None
  /\ re_match unrecognizedPattern (lit "No hash") = None.
Proof. repeat split; vm_compute; reflexivity. Qed.

Example annotation_is_leftmost :
  option_map (group "reviewer")
    (re_search rEqualPattern (lit "0a1b2c Bug 7 - Set attr=1; r=smaug"))
  = Some (lit "1; r=smaug").
Proof. vm_compute. reflexivity. Qed.

Example reviewer_entries :
  reviewerName (lit " sr=smaug.) ") = Some (lit "smaug")
  /\ reviewerName (lit "emilio DONTBUILD") = Some (lit "emilio")
  /\ reviewerName (lit "dom core") = None
  /\ reviewerName (lit "") = None.
Proof. repeat split; vm_compute; reflexivity. Qed.

Example parseReviewers_verdicts :
  parseReviewers (lit "foo, r=bz") = OK
  /\ parseReviewers (lit "foo,bar") = MISSING
  /\ parseReviewers (lit "foo bar") = BAD_PARSE
  /\ parseReviewers (lit "bzbarsky a=release") = BAD_PARSE.
Proof. repeat split; vm_compute; reflexivity. Qed.

Example old_and_recent :
  dateIsOld sample_now old_date = true
  /\ dateIsOld sample_now recent_date = false.
Proof. split; vm_compute; reflexivity. Qed.

Example lines_of_a_file :
  readlines (lit "a" ++ [NL] ++ [NL] ++ lit "b")
  = [lit "a" ++ [NL]; [NL]; lit "b"].
Proof. reflexivity. Qed.

(** ** One threshold, one clock *)

Lemma for_each_ext {A S} (body body' : A -> S -> M S) :
  (forall x s w, body x s w = body' x s w) ->
  forall xs s w, for_each body xs s w = for_each body' xs s w.
Proof.
  intros Hb. induction xs as [|x xs IH]; intros s w; [reflexivity|].
  rewrite !for_each_cons, Hb.
  destruct (body' x s w) as [[s1|c|e] w1]; auto.
Qed.

Lemma bind_ext {A B} (m m' : M A) (f f' : A -> M B) (w : world) :
  m w = m' w -> (forall a w1, f a w1 = f' a w1) ->
  bind m f w = bind m' f' w.
Proof.
  intros Hm Hf. unfold bind. rewrite Hm.
  destruct (m' w) as [[a|c|e] w1]; auto.
Qed.

Section TwoRepositories.

Variable isdecimal : char -> bool.
Variable now : datetime.
Variables g1 g2 : Git.
Hypothesis Hsame : same_age now g1 g2.

Lemma revisionDate_same {A} (revision : str) (f : bool -> M A) (w : world) :
  bind (revisionDate g1 revision) (fun d => f (dateIsOld now d)) w
  = bind (revisionDate g2 revision) (fun d => f (dateIsOld now d)) w.
Proof.
  destruct Hsame as [Hd _]. specialize (Hd revision).
  unfold revisionDate, bind, run_git, lift, raise, ret.
  destruct (commit_date g1 revision) as [e1|d1],
           (commit_date g2 revision) as [e2|d2]; try contradiction.
  - subst e2. reflexivity.
  - rewrite Hd. reflexivity.
Qed.

Lemma classifyLine_same (raw : str) (v : vars) (w : world) :
  classifyLine isdecimal now g1 raw v w = classifyLine isdecimal now g2 raw v w.
Proof.
  unfold classifyLine.
  destruct (re_match (bugPattern isdecimal) (strip raw)); [reflexivity|].
  destruct (re_match backoutMergePattern (strip raw)); [reflexivity|].
  destruct (re_match unrecognizedPattern (strip raw)) as [m|];
    [|reflexivity].
  apply (revisionDate_same (group "revision" m)
           (fun old => if old then _ else _)).
Qed.

Lemma reviewLine_same (p : patch) (v : vars) (w : world) :
  reviewLine now g1 p v w = reviewLine now g2 p v w.
Proof.
  destruct p as [[revision bugnumber] line]. unfold reviewLine.
  destruct (re_search rEqualPattern line) as [m|].
  - destruct (parseReviewers (group "reviewer" m)); [reflexivity| |];
      apply (revisionDate_same revision (fun old => if old then _ else _)).
  - apply (revisionDate_same revision (fun old => if old then _ else _)).
Qed.

Lemma authorLine_same (p : patch) (v : vars) (w : world) :
  authorLine g1 p v w = authorLine g2 p v w.
Proof.
  destruct p as [[revision bugnumber] line].
  unfold authorLine, revisionAuthor. destruct Hsame as [_ He].
  unfold bind, lift. rewrite (He revision). reflexivity.
Qed.

Lemma main_same (text : str) (w : world) :
  main isdecimal now g1 text w = main isdecimal now g2 text w.
Proof.
  unfold main, tallied. apply bind_ext; [|reflexivity].
  apply bind_ext.
  - apply for_each_ext. exact classifyLine_same.
  - intros v1 w1. apply bind_ext.
    + apply for_each_ext. exact reviewLine_same.
    + intros v2 w2. apply for_each_ext. exact authorLine_same.
Qed.

End TwoRepositories.

Lemma dateIsOld_leb (now d : datetime) :
  dateIsOld now d = (1095 * 86400 * 1000000 <=? now - d)%Z.
Proof. reflexivity. Qed.

(** The one place of the first loop where a date is tested: a line that only
    the generic pattern takes. *)
Lemma classifyLine_by_age (isdecimal : char -> bool) (now : datetime)
    (git : Git) (raw : str) (m : captures) (d : datetime) (v : vars)
    (w : world) :
  re_match (bugPattern isdecimal) (strip raw) = None ->
  re_match backoutMergePattern (strip raw) = None ->
  re_match unrecognizedPattern (strip raw) = Some m ->
  commit_date git (group "revision" m) = inr d ->
  fst (classifyLine isdecimal now git raw v w)
  = if (1095 * 86400 * 1000000 <=? now - d)%Z
    then Ret (bump NumOldUnrecognized v)
    else SysExit (-1).
Proof.
  intros Hbug Hback Hgen Hd. unfold classifyLine.
  rewrite Hbug, Hback, Hgen.
  unfold revisionDate, bind, run_git, lift, ret. rewrite Hd.
  rewrite dateIsOld_leb.
  destruct (1095 * 86400 * 1000000 <=? now - d)%Z; reflexivity.
Qed.

(** The three places of the second loop where a date is tested, one for each
    way a patch can fail to show peer review. *)
Lemma reviewLine_by_age (now : datetime) (git : Git)
    (revision bugnumber line : str) (d : datetime) (v : vars) (w : world) :
  commit_date git revision = inr d ->
  fst (reviewLine now git (revision, bugnumber, line) v w)
  = let old := (1095 * 86400 * 1000000 <=? now - d)%Z in
    match option_map (fun m => parseReviewers (group "reviewer" m))
            (re_search rEqualPattern line) with
    | Some OK => Ret (bump NumHasPeer v)
    | Some BAD_PARSE =>
        if old then Ret (bump NumOldUnparsableReviewers v) else SysExit (-1)
    | Some MISSING =>
        if old then Ret (bump NumOldMissing v)
        else Ret (set_bugsMissingReview
                    (bugsMissingReview v ++ [(revision, bugnumber, line)]) v)
    | None =>
        if old then Ret (bump NumOldReviewerless v)
        else if str_eqb bugnumber (lit "1968400")
             then Ret (bump NumPeerAuthored v)
             else SysExit (-1)
    end.
Proof.
  intros Hd. unfold reviewLine.
  destruct (re_search rEqualPattern line) as [m|]; unfold option_map.
  - destruct (parseReviewers (group "reviewer" m)); [reflexivity| |];
      unfold revisionDate, bind, run_git, lift, ret; rewrite Hd;
      rewrite dateIsOld_leb; cbv zeta;
      destruct (1095 * 86400 * 1000000 <=? now - d)%Z; reflexivity.
  - unfold revisionDate, bind, run_git, lift, ret. rewrite Hd.
    rewrite dateIsOld_leb. cbv zeta.
    destruct (1095 * 86400 * 1000000 <=? now - d)%Z; [reflexivity|].
    destruct (str_eqb bugnumber (lit "1968400")); reflexivity.
Qed.

(** C10. A commit is old if and only if the start time of the program,
    taken once, minus the commit date is at least 3 * 365 = 1095 days.
    Every date-based exemption of the pipeline is decided by this threshold
    on the date of the commit of the line at hand, against the one start
    time of the run: in the first loop a line that only the generic pattern
    takes is counted in [numOldUnrecognized] exactly when its commit is that
    old, and is an error otherwise; in the second loop a patch whose
    annotation is unparsable, names no peer or is absent is counted in
    [numOldUnparsableReviewers], [numOldMissing] or [numOldReviewerless]
    exactly when its commit is that old, and otherwise is an error, is queued
    for the third loop, or falls to the test of bug 1968400.  Nothing else
    in the run depends on a date: two repositories whose dates fall on the
    same side of the threshold give the same run. *)
Theorem old_is_1095_days (isdecimal : char -> bool) (now : datetime) :
  (forall d : datetime,
      dateIsOld now d = true
      <-> (1095 * 86400 * 1000000 <= now - d)%Z)
  /\ (forall (git : Git) (raw : str) (m : captures) (d : datetime)
             (v : vars) (w : world),
         re_match (bugPattern isdecimal) (strip raw) = None ->
         re_match backoutMergePattern (strip raw) = None ->
         re_match unrecognizedPattern (strip raw) = Some m ->
         commit_date git (group "revision" m) = inr d ->
         fst (classifyLine isdecimal now git raw v w)
         = if (1095 * 86400 * 1000000 <=? now - d)%Z
           then Ret (bump NumOldUnrecognized v)
           else SysExit (-1))
  /\ (forall (git : Git) (revision bugnumber line : str) (d : datetime)
             (v : vars) (w : world),
         commit_date git revision = inr d ->
         fst (reviewLine now git (revision, bugnumber, line) v w)
         = let old := (1095 * 86400 * 1000000 <=? now - d)%Z in
           match option_map (fun m => parseReviewers (group "reviewer" m))
                   (re_search rEqualPattern line) with
           | Some OK => Ret (bump NumHasPeer v)
           | Some BAD_PARSE =>
               if old then Ret (bump NumOldUnparsableReviewers v)
               else SysExit (-1)
           | Some MISSING =>
               if old then Ret (bump NumOldMissing v)
               else Ret (set_bugsMissingReview
                           (bugsMissingReview v
                            ++ [(revision, bugnumber, line)]) v)
           | None =>
               if old then Ret (bump NumOldReviewerless v)
               else if str_eqb bugnumber (lit "1968400")
                    then Ret (bump NumPeerAuthored v)
                    else SysExit (-1)
           end)
  /\ (forall (g1 g2 : Git) (text : str) (w : world),
         same_age now g1 g2 ->
         main isdecimal now g1 text w = main isdecimal now g2 text w).
Proof.
  split; [|split; [|split]].
  - intros d. apply dateIsOld_iff.
  - intros git raw m d v w. apply classifyLine_by_age.
  - intros git revision bugnumber line d v w. apply reviewLine_by_age.
  - intros g1 g2 text w Hsame. apply main_same. exact Hsame.
Qed.

(** ** The second stage, case by case *)

Section SecondStage.

Variable git : Git.

(** What the third loop does with a patch whose author git can name: the
    test is a match of [webIDLPeersEmailPattern], then the two bug numbers;
    the message of an unknown violation ends without a newline. *)
Lemma authorLine_cases (revision bugnumber line author : str) (v : vars)
    (w : world) :
  committer_email git revision = inr author ->
  let w1 := {| out := out w; err := err w;
               calls := ShowAuthor revision :: calls w |} in
  authorLine git (revision, bugnumber, line) v w
  = if matches webIDLPeersEmailPattern (strip author) then
      (Ret (bump NumPeerAuthored v), w1)
    else if str_eqb bugnumber (lit "1966190")
            || str_eqb bugnumber (lit "1979610") then
      (Ret (bump NumKnownMissing v), w1)
    else
      (Ret (bump NumUnknownMissing v),
       {| out := out w;
          err := err w ++ lit "MISSING WebIDL review for bug " ++ bugnumber
                 ++ lit ": " ++ line;
          calls := ShowAuthor revision :: calls w |}).
Proof.
  intros Hauthor. unfold authorLine, revisionAuthor, matches.
  unfold bind, run_git, lift, ret. rewrite Hauthor.
  destruct (re_match webIDLPeersEmailPattern (strip author)); [reflexivity|].
  destruct (str_eqb bugnumber (lit "1966190")); [reflexivity|].
  destruct (str_eqb bugnumber (lit "1979610")); reflexivity.
Qed.

End SecondStage.

(** ** The properties on sample runs *)

(** C1, on the clean log: no unknown violation, the report is printed and
    the status is zero. *)
Lemma exit_after_tally_clean_log :
  exists v w',
    tallied ascii_decimal sample_now (recent_repo "x@y.org") log_clean
      initial_world = (Ret v, w')
    /\ numUnknownMissing v = 0
    /\ main ascii_decimal sample_now (recent_repo "x@y.org") log_clean
         initial_world
       = (Ret tt, {| out := out w' ++ report_text v; err := err w';
                     calls := calls w' |})
    /\ exit_status (fst (main ascii_decimal sample_now
                           (recent_repo "x@y.org") log_clean initial_world))
       = 0%Z.
Proof.
  eexists. eexists.
  assert (H : tallied ascii_decimal sample_now (recent_repo "x@y.org")
                log_clean initial_world = (Ret _, _))
    by (vm_compute; reflexivity).
  split; [exact H|]. split; [reflexivity|].
  exact (proj2 (exit_after_tally _ _ _ _ _ _ _ H) eq_refl).
Defined.

(** C2, on two sample repositories.  The address tested is the committer's
    and the dots of the pattern are unescaped: a committer address that is
    not on the list is accepted, the patch counted as peer-authored and the
    run ends with status zero and an empty error stream; and a patch written
    by a listed peer but committed by somebody else is reported as an unknown
    violation. *)
Theorem second_stage_tests_committer_pattern :
  (~ In (lit "emilio@crisalxio") webIDLPeersEmailRE
   /\ option_map numPeerAuthored
        (value (fst (tallied ascii_decimal sample_now
                       (recent_repo "emilio@crisalxio") log_one_missing
                       initial_world))) = Some 1
   /\ option_map numUnknownMissing
        (value (fst (tallied ascii_decimal sample_now
                       (recent_repo "emilio@crisalxio") log_one_missing
                       initial_world))) = Some 0
   /\ err (snd (main ascii_decimal sample_now
                  (recent_repo "emilio@crisalxio") log_one_missing
                  initial_world)) = []
   /\ exit_status (fst (main ascii_decimal sample_now
                          (recent_repo "emilio@crisalxio") log_one_missing
                          initial_world)) = 0%Z)
  /\ (In (author_email landed_repo (lit "aaa111")) webIDLPeersEmailRE
      /\ option_map numPeerAuthored
           (value (fst (tallied ascii_decimal sample_now landed_repo
                          log_one_missing initial_world))) = Some 0
      /\ option_map numUnknownMissing
           (value (fst (tallied ascii_decimal sample_now landed_repo
                          log_one_missing initial_world))) = Some 1
      /\ exit_status (fst (main ascii_decimal sample_now landed_repo
                             log_one_missing initial_world)) = 255%Z).
Proof.
  split.
  - split.
    + intros H. vm_compute in H.
      repeat (destruct H as [H|H]; [discriminate|]). exact H.
    + repeat split; vm_compute; reflexivity.
  - split.
    + left. vm_compute. reflexivity.
    + repeat split; vm_compute; reflexivity.
Qed.

(** C3, on the annotation "dom core,smaug": the entry "smaug" names a peer,
    but the entry before it is unparsable and the patch is not counted as
    having peer review. *)
Lemma named_peer_not_counted :
  option_map (group "reviewer")
    (re_search rEqualPattern (line_of patch_unparsable))
  = Some (lit "dom core,smaug")
  /\ ~ (counted_as_reviewed sample_now (recent_repo "x@y.org")
          patch_unparsable initial_vars initial_world
        <-> names_a_peer (lit "dom core,smaug")).
Proof.
  split; [vm_compute; reflexivity|].
  intros [_ H].
  assert (Hn : names_a_peer (lit "dom core,smaug")).
  { exists (lit "smaug"), (lit "smaug").
    split; [vm_compute; auto|]. split; [vm_compute; reflexivity|].
    vm_compute. do 26 right. left. reflexivity. }
  apply H in Hn. unfold counted_as_reviewed in Hn. vm_compute in Hn.
  discriminate Hn.
Qed.

(** C3, on the annotation "smaug". *)
Lemma peer_review_counted_smaug :
  exists m,
    re_search rEqualPattern (lit "aaa111 Bug 100 - Add a thing. r=smaug")
    = Some m
    /\ (counted_as_reviewed sample_now (recent_repo "x@y.org")
          (lit "aaa111", lit "100",
           lit "aaa111 Bug 100 - Add a thing. r=smaug")
          initial_vars initial_world
        <-> names_a_peer_first (group "reviewer" m)).
Proof.
  eexists.
  assert (H : re_search rEqualPattern
                (lit "aaa111 Bug 100 - Add a thing. r=smaug") = Some _)
    by (vm_compute; reflexivity).
  split; [exact H|].
  exact (peer_review_counted sample_now (recent_repo "x@y.org") _ _ _ _
           initial_vars initial_world H).
Defined.

(** C5, on a commit with an empty summary: once stripped, the line is the
    hash alone and matches none of the three patterns; the script ends on an
    uncaught [AttributeError] and its message never reaches the error
    stream. *)
Theorem hashless_line_message_is_lost :
  main ascii_decimal sample_now (recent_repo "x@y.org") log_empty_summary
    initial_world
  = (Uncaught AttributeError, initial_world).
Proof. vm_compute. reflexivity. Qed.

(** C7, on the clean log: three bug-fix lines, counted once each. *)
Lemma seven_counters_sum_clean_log :
  exists v w',
    tallied ascii_decimal sample_now (recent_repo "x@y.org") log_clean
      initial_world = (Ret v, w')
    /\ numHasPeer v + numOldUnparsableReviewers v + numOldMissing v
       + numOldReviewerless v + numPeerAuthored v + numKnownMissing v
       + numUnknownMissing v
       = List.length (filter (is_bug_line ascii_decimal) (readlines log_clean)).
Proof.
  eexists. eexists.
  assert (H : tallied ascii_decimal sample_now (recent_repo "x@y.org")
                log_clean initial_world = (Ret _, _))
    by (vm_compute; reflexivity).
  split; [exact H|].
  exact (seven_counters_sum _ _ _ _ _ _ _ H).
Defined.

(** C8, on two unknown violations: the two messages and the final banner
    are written without a line terminator, so the error stream holds no
    complete line at all. *)
Theorem violation_messages_run_together :
  option_map numUnknownMissing
    (value (fst (tallied ascii_decimal sample_now (recent_repo "x@y.org")
                   log_two_missing initial_world))) = Some 2
  /\ err (snd (main ascii_decimal sample_now (recent_repo "x@y.org")
                 log_two_missing initial_world))
     = lit "MISSING WebIDL review for bug 100: aaa111 Bug 100 - Add a thing. r=foo"
       ++ lit "MISSING WebIDL review for bug 200: bbb222 Bug 200 - Tweak. r=bar"
       ++ lit "!!! Unknown non-old patches missing WebIDL review !!!"
  /\ mem NL (err (snd (main ascii_decimal sample_now (recent_repo "x@y.org")
                         log_two_missing initial_world))) = false.
Proof. repeat split; vm_compute; reflexivity. Qed.

(** C9, on bug 1968400 with a recent commit. *)
Lemma reviewerless_rule_1968400 :
  contains (lit "r=") (lit "ddd444 Bug 1968400 - No reviewer") = false
  /\ commit_date (recent_repo "x@y.org") (lit "ddd444") = inr recent_date
  /\ dateIsOld sample_now recent_date = false
  /\ reviewLine sample_now (recent_repo "x@y.org") patch_1968400
       initial_vars initial_world
     = (Ret (bump NumPeerAuthored initial_vars),
        {| out := []; err := []; calls := [ShowDate (lit "ddd444")] |}).
Proof.
  assert (H1 : contains (lit "r=") (lit "ddd444 Bug 1968400 - No reviewer")
               = false) by (vm_compute; reflexivity).
  assert (H2 : commit_date (recent_repo "x@y.org") (lit "ddd444")
               = inr recent_date) by reflexivity.
  assert (H3 : dateIsOld sample_now recent_date = false)
    by (vm_compute; reflexivity).
  split; [exact H1|]. split; [exact H2|]. split; [exact H3|].
  exact (proj1 (reviewerless_rule sample_now (recent_repo "x@y.org")
                  (lit "ddd444") (lit "1968400")
                  (lit "ddd444 Bug 1968400 - No reviewer") recent_date
                  initial_vars initial_world H1 H2 H3) eq_refl).
Defined.

(** C10, on a commit of 2020 and one of 2025 seen from 2026: the line that
    only the generic pattern takes is counted as old for the first and is an
    error for the second; the patch without annotation is counted as old and
    reviewerless for the first and falls to the test of its bug number for
    the second; and a repository whose commits are one second younger gives
    the same run. *)
Lemma old_is_1095_days_2020_2025 :
  (dateIsOld sample_now old_date = true
   /\ dateIsOld sample_now recent_date = false)
  /\ (fst (classifyLine ascii_decimal sample_now
             (repo old_date "x@y.org" "x@y.org") (lit "abc1234 Tidy up")
             initial_vars initial_world)
      = Ret (bump NumOldUnrecognized initial_vars)
      /\ fst (classifyLine ascii_decimal sample_now (recent_repo "x@y.org")
                (lit "abc1234 Tidy up") initial_vars initial_world)
         = SysExit (-1))
  /\ (fst (reviewLine sample_now (repo old_date "x@y.org" "x@y.org")
             patch_1968400 initial_vars initial_world)
      = Ret (bump NumOldReviewerless initial_vars)
      /\ fst (reviewLine sample_now (recent_repo "x@y.org") patch_1968400
                initial_vars initial_world)
         = Ret (bump NumPeerAuthored initial_vars))
  /\ main ascii_decimal sample_now (recent_repo "x@y.org") log_clean
       initial_world
     = main ascii_decimal sample_now
         (repo (recent_date + 1000000)%Z "x@y.org" "x@y.org") log_clean
         initial_world.
Proof.
  destruct (old_is_1095_days ascii_decimal sample_now)
    as (Hold & Hfirst & Hsecond & Hsame).
  split; [|split; [|split]].
  - split.
    + apply (proj2 (Hold old_date)). vm_compute. discriminate.
    + destruct (dateIsOld sample_now recent_date) eqn:E; [|reflexivity].
      apply (proj1 (Hold recent_date)) in E. vm_compute in E.
      exfalso. apply E. reflexivity.
  - assert (Hbug : re_match (bugPattern ascii_decimal)
                     (strip (lit "abc1234 Tidy up")) = None)
      by (vm_compute; reflexivity).
    assert (Hback : re_match backoutMergePattern
                      (strip (lit "abc1234 Tidy up")) = None)
      by (vm_compute; reflexivity).
    assert (Hgen : re_match unrecognizedPattern
                     (strip (lit "abc1234 Tidy up"))
                   = Some [("summary"%string, lit "Tidy up");
                           ("revision"%string, lit "abc1234")])
      by (vm_compute; reflexivity).
    split.
    + rewrite (Hfirst (repo old_date "x@y.org" "x@y.org") _ _ old_date
                 initial_vars initial_world Hbug Hback Hgen eq_refl).
      reflexivity.
    + rewrite (Hfirst (recent_repo "x@y.org") _ _ recent_date
                 initial_vars initial_world Hbug Hback Hgen eq_refl).
      reflexivity.
  - split.
    + exact (Hsecond (repo old_date "x@y.org" "x@y.org") (lit "ddd444")
               (lit "1968400") (lit "ddd444 Bug 1968400 - No reviewer")
               old_date initial_vars initial_world eq_refl).
    + exact (Hsecond (recent_repo "x@y.org") (lit "ddd444")
               (lit "1968400") (lit "ddd444 Bug 1968400 - No reviewer")
               recent_date initial_vars initial_world eq_refl).
  - apply Hsame. split.
    + intros revision. vm_compute. reflexivity.
    + intros revision. reflexivity.
Defined.

(** ** The further properties on sample runs *)

(** X2, on the clean log: four lines, three bug fixes and a backout. *)
Lemma first_loop_counts_every_line_clean_log :
  exists v w',
    classified ascii_decimal sample_now (recent_repo "x@y.org") log_clean
      initial_world = (Ret v, w')
    /\ (List.length (bugs v)
        = count_class ascii_decimal sample_now (recent_repo "x@y.org") BugFix
            (readlines log_clean)
        /\ numReverts v
           = count_class ascii_decimal sample_now (recent_repo "x@y.org")
               BackoutMerge (readlines log_clean)
        /\ numOldUnrecognized v
           = count_class ascii_decimal sample_now (recent_repo "x@y.org")
               OldUnrecognized (readlines log_clean)
        /\ count_class ascii_decimal sample_now (recent_repo "x@y.org") Error
             (readlines log_clean) = 0
        /\ List.length (bugs v) + numReverts v + numOldUnrecognized v
           = List.length (readlines log_clean)).
Proof.
  eexists. eexists.
  assert (H : classified ascii_decimal sample_now (recent_repo "x@y.org")
                log_clean initial_world = (Ret _, _))
    by (vm_compute; reflexivity).
  split; [exact H|].
  exact (first_loop_counts_every_line _ _ _ _ _ _ _ H).
Defined.

(** X3, on the clean log. *)
Lemma counters_are_counts_clean_log :
  exists v w',
    tallied ascii_decimal sample_now (recent_repo "x@y.org") log_clean
      initial_world = (Ret v, w')
    /\ forall c : counter,
         get c v
         = final_count ascii_decimal sample_now (recent_repo "x@y.org") c
             (readlines log_clean).
Proof.
  eexists. eexists.
  assert (H : tallied ascii_decimal sample_now (recent_repo "x@y.org")
                log_clean initial_world = (Ret _, _))
    by (vm_compute; reflexivity).
  split; [exact H|].
  exact (counters_are_counts _ _ _ _ _ _ _ H).
Defined.

(** X4, on the clean log. *)
Lemma success_prints_the_report_clean_log :
  exists u w',
    main ascii_decimal sample_now (recent_repo "x@y.org") log_clean
      initial_world = (Ret u, w')
    /\ exists v w1,
         tallied ascii_decimal sample_now (recent_repo "x@y.org") log_clean
           initial_world = (Ret v, w1)
         /\ numUnknownMissing v = 0
         /\ out w' = out initial_world ++ report_text v
         /\ err w' = err initial_world.
Proof.
  eexists. eexists.
  assert (H : main ascii_decimal sample_now (recent_repo "x@y.org")
                log_clean initial_world = (Ret _, _))
    by (vm_compute; reflexivity).
  split; [exact H|].
  exact (success_prints_the_report _ _ _ _ _ _ _ H).
Defined.

(** X5, on two unknown violations. *)
Lemma exits_are_announced_two_missing :
  exists c w',
    main ascii_decimal sample_now (recent_repo "x@y.org") log_two_missing
      initial_world = (SysExit c, w')
    /\ c = (-1)%Z /\ complained initial_world w'.
Proof.
  eexists. eexists.
  assert (H : main ascii_decimal sample_now (recent_repo "x@y.org")
                log_two_missing initial_world = (SysExit _, _))
    by (vm_compute; reflexivity).
  split; [exact H|].
  exact (exits_are_announced _ _ _ _ _ _ _ H).
Defined.


(** X7, on the clean log. *)
Lemma git_calls_of_a_complete_run_clean_log :
  exists v w',
    tallied ascii_decimal sample_now (recent_repo "x@y.org") log_clean
      initial_world = (Ret v, w')
    /\ let patches := bug_patches ascii_decimal (readlines log_clean) in
       calls w'
       = map (fun p => ShowAuthor (revision_of p))
           (rev (filter (missing_not_old sample_now (recent_repo "x@y.org"))
                   patches))
         ++ map ShowDate (rev (flat_map asked_date_2 patches))
         ++ map ShowDate
              (rev (flat_map (asked_date_1 ascii_decimal)
                      (readlines log_clean)))
         ++ calls initial_world.
Proof.
  eexists. eexists.
  assert (H : tallied ascii_decimal sample_now (recent_repo "x@y.org")
                log_clean initial_world = (Ret _, _))
    by (vm_compute; reflexivity).
  split; [exact H|].
  exact (git_calls_of_a_complete_run _ _ _ _ _ _ _ H).
Defined.

(** X9, on the first patch of the clean log: the annotation is "smaug". *)
Lemma annotation_of_a_patch_100 :
  In patch_100 (bug_patches ascii_decimal (readlines log_clean))
  /\ option_map (group "reviewer")
       (re_search rEqualPattern (line_of patch_100))
     = after_first (lit "r=") (line_of patch_100).
Proof.
  assert (H : In patch_100 (bug_patches ascii_decimal (readlines log_clean)))
    by (vm_compute; left; reflexivity).
  split; [exact H|].
  exact (annotation_of_a_patch _ _ _ H).
Defined.

(** X10, on the first patch of the clean log. *)
Lemma bugs_entries_are_well_formed_100 :
  In patch_100 (bug_patches ascii_decimal (readlines log_clean))
  /\ (hash_like (revision_of patch_100) = true
      /\ bugnumber_of patch_100 <> []
      /\ Forall (fun c => ascii_decimal c = true) (bugnumber_of patch_100)
      /\ (exists rest, line_of patch_100 = revision_of patch_100 ++ rest)
      /\ ~ In NL (line_of patch_100)
      /\ exists raw, In raw (readlines log_clean)
                     /\ line_of patch_100 = strip raw).
Proof.
  assert (H : In patch_100 (bug_patches ascii_decimal (readlines log_clean)))
    by (vm_compute; left; reflexivity).
  split; [exact H|].
  exact (bugs_entries_are_well_formed _ _ _ H).
Defined.

(** X11, on the annotation "  r=smaug.,foo". *)
Lemma padded_peer_entry_is_OK_smaug :
  Forall (fun c => c = 32%N) (lit "  ")
  /\ In (lit "r=") [lit ""; lit "r="; lit "sr="]
  /\ In (lit "smaug") webIDLPeersRE
  /\ Forall (fun c => mem c (lit " .])") = true) (lit ".")
  /\ (lit ",foo" = [] \/ (exists r, lit ",foo" = 44%N :: r))
  /\ parseReviewers
       (lit "  " ++ lit "r=" ++ lit "smaug" ++ lit "." ++ lit ",foo") = OK.
Proof.
  assert (H1 : Forall (fun c => c = 32%N) (lit "  "))
    by (repeat constructor).
  assert (H2 : In (lit "r=") [lit ""; lit "r="; lit "sr="])
    by (right; left; reflexivity).
  assert (H3 : In (lit "smaug") webIDLPeersRE)
    by (vm_compute; do 26 right; left; reflexivity).
  assert (H4 : Forall (fun c => mem c (lit " .])") = true) (lit "."))
    by (repeat constructor).
  assert (H5 : lit ",foo" = [] \/ (exists r, lit ",foo" = 44%N :: r))
    by (right; eexists; reflexivity).
  split; [exact H1|]. split; [exact H2|]. split; [exact H3|].
  split; [exact H4|]. split; [exact H5|].
  exact (padded_peer_entry_is_OK _ _ _ _ _ H1 H2 H3 H4 H5).
Defined.

(** X12, on the line "abc1234 Tidy up". *)
Lemma generic_pattern_language_tidy_up :
  ~ In NL (lit "abc1234 Tidy up")
  /\ (matches unrecognizedPattern (lit "abc1234 Tidy up") = true
      <-> exists g rest,
            hash_like g = true /\ lit "abc1234 Tidy up" = g ++ 32%N :: rest).
Proof.
  assert (H : ~ In NL (lit "abc1234 Tidy up")).
  { intros H. vm_compute in H.
    repeat (destruct H as [H|H]; [discriminate H|]). exact H. }
  split; [exact H|].
  exact (generic_pattern_language _ H).
Defined.

(** X13, on the first line of the clean log. *)
Lemma bug_fix_is_no_backout_100 :
  matches (bugPattern ascii_decimal) (line_of patch_100) = true
  /\ matches backoutMergePattern (line_of patch_100) = false.
Proof.
  assert (H : matches (bugPattern ascii_decimal) (line_of patch_100) = true)
    by (vm_compute; reflexivity).
  split; [exact H|].
  exact (bug_fix_is_no_backout _ _ H).
Defined.

(** X14, on two unknown violations: two messages and the closing one. *)
Lemma error_stream_of_a_complete_run_two_missing :
  exists v w1,
    tallied ascii_decimal sample_now (recent_repo "x@y.org") log_two_missing
      initial_world = (Ret v, w1)
    /\ let unknown :=
         filter (unknown_violation (recent_repo "x@y.org"))
           (filter (missing_not_old sample_now (recent_repo "x@y.org"))
              (bug_patches ascii_decimal (readlines log_two_missing))) in
       err (snd (main ascii_decimal sample_now (recent_repo "x@y.org")
                   log_two_missing initial_world))
       = err initial_world ++ concat (map violation_message unknown)
         ++ match unknown with
            | [] => []
            | _ :: _ =>
                lit "!!! Unknown non-old patches missing WebIDL review !!!"
            end
       /\ fst (main ascii_decimal sample_now (recent_repo "x@y.org")
                 log_two_missing initial_world)
          = match unknown with [] => Ret tt | _ :: _ => SysExit (-1) end.
Proof.
  eexists. eexists.
  assert (H : tallied ascii_decimal sample_now (recent_repo "x@y.org")
                log_two_missing initial_world = (Ret _, _))
    by (vm_compute; reflexivity).
  split; [exact H|].
  exact (error_stream_of_a_complete_run _ _ _ _ _ _ _ H).
Defined.
